(** * Retrieval pipeline of the quantized-llm-chatbot repository

    A shallow embedding of the document retrieval code:
    - [chunk_document], [search_documents], [upload_document], [login] and
      [clean_model_response] of [src/backend/app.py],
    - [search_documents], [upload_document] and [login] of
      [fixed_backend.py],
    - [add_document_with_embeddings], [semantic_search] and
      [_log_search_query] of [src/database/vector_db.py],
    - [generate_embeddings], [generate_batch_embeddings] and
      [preprocess_text] of [src/nlp/processor.py],
    together with the Python builtins these functions call. *)

From stdpp Require Import base list strings gmap sorting.
From Stdlib Require Import ZArith QArith Qabs Lia DecimalString.

Close Scope Q_scope.
Local Open Scope Z_scope.

(** ** Python builtins *)

Module Py.

(** A Python [str] is a sequence of Unicode code points. *)
Definition char := N.
Definition str := list char.

(** Literals of the source are written as Rocq strings. *)
Definition lit (s : string) : str :=
  map Ascii.N_of_ascii (String.list_ascii_of_string s).

Inductive exn :=
| ValueError (msg : string)
| IndexError (msg : string)
| RuntimeError (msg : string)
| SqliteError (msg : string).

Inductive outcome (A : Type) :=
| Ok (a : A)
| Raise (e : exn).
Arguments Ok {A} a.
Arguments Raise {A} e.

Definition len {A} (l : list A) : Z := Z.of_nat (length l).

(** [str.isspace] on one code point: the whitespace table of CPython. *)
Definition isspace (c : char) : bool :=
  ((9 <=? c) && (c <=? 13) || (28 <=? c) && (c <=? 32)
   || (c =? 133) || (c =? 160) || (c =? 5760)
   || (8192 <=? c) && (c <=? 8202)
   || (c =? 8232) || (c =? 8233) || (c =? 8239) || (c =? 8287)
   || (c =? 12288))%N.

(** [s.split()] without a separator: runs of whitespace separate the
    words, leading and trailing whitespace is dropped.  [cur] is the word
    being scanned, in reverse. *)
Definition flush (cur : str) (ws : list str) : list str :=
  match cur with
  | [] => ws
  | _ => rev cur :: ws
  end.

Fixpoint split_from (cur : str) (s : str) : list str :=
  match s with
  | [] => flush cur []
  | c :: s' =>
      if isspace c then flush cur (split_from [] s')
      else split_from (c :: cur) s'
  end.

Definition split (s : str) : list str := split_from [] s.

(** [sep.join(l)] *)
Fixpoint join (sep : str) (l : list str) : str :=
  match l with
  | [] => []
  | [w] => w
  | w :: ws => w ++ sep ++ join sep ws
  end.

(** [s.strip()] *)
Fixpoint lstrip (s : str) : str :=
  match s with
  | [] => []
  | c :: s' => if isspace c then lstrip s' else s
  end.

Definition strip (s : str) : str := rev (lstrip (rev (lstrip s))).

(** Truth value of a string or list. *)
Definition truthy {A} (l : list A) : bool :=
  match l with [] => false | _ => true end.

(** [range(start, stop, step)], with the length CPython computes. *)
Definition range_length (start stop step : Z) : Z :=
  if 0 <? step then
    if start <? stop then (stop - start - 1) / step + 1 else 0
  else
    if stop <? start then (start - stop - 1) / (- step) + 1 else 0.

Definition range (start stop step : Z) : outcome (list Z) :=
  if step =? 0 then Raise (ValueError "range() arg 3 must not be zero")
  else Ok (map (fun k : nat => start + Z.of_nat k * step)
             (seq 0 (Z.to_nat (range_length start stop step)))).

(** [l[start:stop]]: negative indices count from the end, and both ends
    are clamped to the list. *)
Definition slice_index (n i : Z) : Z :=
  if i <? 0 then Z.max 0 (i + n) else Z.min i n.

Definition slice {A} (l : list A) (start stop : Z) : list A :=
  let a := slice_index (len l) start in
  let b := slice_index (len l) stop in
  take (Z.to_nat (b - a)) (drop (Z.to_nat a) l).

(** [l[:stop]] *)
Definition slice_to {A} (l : list A) (stop : Z) : list A := slice l 0 stop.

(** [sub in s] *)
Fixpoint startswith (sub s : str) : bool :=
  match sub, s with
  | [], _ => true
  | _ :: _, [] => false
  | a :: sub', b :: s' => (a =? b)%N && startswith sub' s'
  end.

Fixpoint contains (sub s : str) : bool :=
  startswith sub s || match s with [] => false | _ :: s' => contains sub s' end.

(** [s.count(sub)]: occurrences that do not overlap, scanning from the
    left; [skip] characters are still covered by the last occurrence. *)
Fixpoint count_from (sub : str) (skip : nat) (s : str) : Z :=
  match s with
  | [] => 0
  | _ :: s' =>
      match skip with
      | S k => count_from sub k s'
      | O => if startswith sub s
             then 1 + count_from sub (Nat.pred (length sub)) s'
             else count_from sub 0 s'
      end
  end.

Definition count (s sub : str) : Z :=
  match sub with
  | [] => len s + 1
  | _ => count_from sub 0 s
  end.

(** [s.find(sub)] *)
Fixpoint find_from (sub : str) (i : Z) (s : str) : Z :=
  if startswith sub s then i
  else match s with
       | [] => -1
       | _ :: s' => find_from sub (i + 1) s'
       end.

Definition find (s sub : str) : Z := find_from sub 0 s.

(** [list.sort(key=..., reverse=...)] is stable; so is insertion from the
    right, where [before x y] says that [x] may stay in front of [y]. *)
Fixpoint insert_sorted {A} (before : A -> A -> bool) (x : A) (l : list A) : list A :=
  match l with
  | [] => [x]
  | y :: l' => if before x y then x :: l else y :: insert_sorted before x l'
  end.

Definition stable_sort {A} (before : A -> A -> bool) (l : list A) : list A :=
  foldr (insert_sorted before) [] l.

End Py.

Import Py.

(** ** [src/backend/app.py]: the chunker *)

Module Chunker.

(** The body of the [for] loop of [chunk_document]. *)
Definition chunk_step (words : list str) (chunk_size : Z)
    (chunks : list str) (i : Z) : list str :=
  let chunk := join (lit " ") (slice words i (i + chunk_size)) in
  if truthy (strip chunk) then chunks ++ [strip chunk] else chunks.

Definition chunk_document (content : str) (chunk_size overlap : Z)
    : outcome (list str) :=
  let words := split content in
  match range 0 (len words) (chunk_size - overlap) with
  | Raise e => Raise e
  | Ok starts => Ok (foldl (chunk_step words chunk_size) [] starts)
  end.

(** The defaults of the signature. *)
Definition chunk_document_default (content : str) : outcome (list str) :=
  chunk_document content 500 50.

End Chunker.

Import Chunker.

(** ** [src/backend/app.py] and [fixed_backend.py]: keyword search *)

Module KeywordSearch.

(** One entry of the [results] list of a search response. *)
Record hit := Hit {
  hit_filename : str;
  content_preview : str;
  relevance_score : Z;
  matches : Z
}.

(** Values stored under the keys of a response dictionary. *)
Inductive value :=
| VStr (s : str)
| VInt (n : Z)
| VBool (b : bool)
| VHits (l : list hit).

(** [results.sort(key=lambda x: x["relevance_score"], reverse=True)] *)
Definition by_relevance (a b : hit) : bool :=
  relevance_score b <=? relevance_score a.

(** [str.lower] on ASCII text; on other text it is a parameter of the
    search functions. *)
Definition ascii_lower (s : str) : str :=
  map (fun c => if (65 <=? c)%N && (c <=? 90)%N then (c + 32)%N else c) s.

Section Lower.

(** [str.lower] *)
Variable lower : str -> str.

(** *** [src/backend/app.py] *)

Record document := Document {
  document_id : str;
  filename : str;
  content : str;
  chunks : list str;
  word_count : Z;
  language : str
}.

(** [QuantizedModelState], with the fields the retrieval code reads;
    [embedding_model] is [None] until a model has been loaded. *)
Record model_state (embedder : Type) := ModelState {
  embedding_model : option embedder;
  loaded : bool;
  documents : list document
}.
Arguments embedding_model {embedder} _.
Arguments loaded {embedder} _.
Arguments documents {embedder} _.

(** The body of the loop over the documents. *)
Definition search_step (query_lower : str) (results : list hit)
    (doc : document) : list hit :=
  let matches :=
    filter (fun chunk => Is_true (contains query_lower (lower chunk)))
           (chunks doc) in
  match matches with
  | [] => results
  | first :: _ =>
      let relevance_score := Z.min (85 + len matches * 10) 100 in
      results ++ [ {| hit_filename := filename doc;
                      content_preview :=
                        if truthy first
                        then slice_to first 200 ++ lit "..."
                        else [];
                      relevance_score := relevance_score;
                      matches := len matches |} ]
  end.

(** No statement of the [try] block raises on a state built by
    [upload_document], so the handler that turns an exception into an
    HTTP 500 error is not reached and the response is returned. *)
Definition search_documents {embedder} (st : model_state embedder)
    (query : str) (limit : Z) : gmap string value :=
  if negb (truthy (documents st)) then
    {[ "results" := VHits [];
       "message" := VStr (lit "No documents uploaded yet") ]}
  else
    let query_lower := lower query in
    let results := foldl (search_step query_lower) [] (documents st) in
    let results := stable_sort by_relevance results in
    {[ "results" := VHits (slice_to results limit);
       "total_documents" := VInt (len (documents st));
       "query" := VStr query ]}.

(** *** [fixed_backend.py] *)

Record fixed_document := FixedDocument {
  fixed_document_id : str;
  fixed_filename : str;
  fixed_content : str;
  fixed_word_count : Z;
  fixed_language : str;
  chunks_created : Z
}.

Record fixed_model_state (embedder : Type) := FixedModelState {
  fixed_embedding_model : option embedder;
  fixed_loaded : bool;
  fixed_documents : list fixed_document
}.
Arguments fixed_embedding_model {embedder} _.
Arguments fixed_loaded {embedder} _.
Arguments fixed_documents {embedder} _.

Definition fixed_search_step (query_lower : str) (results : list hit)
    (doc : fixed_document) : list hit :=
  let content_lower := lower (fixed_content doc) in
  if contains query_lower content_lower then
    let matches := count content_lower query_lower in
    let relevance := Z.min 90 (60 + matches * 10) in
    let start := find content_lower query_lower in
    let preview_start := Z.max 0 (start - 50) in
    let preview_end := Z.min (len (fixed_content doc)) (start + 200) in
    let preview := slice (fixed_content doc) preview_start preview_end in
    results ++ [ {| hit_filename := fixed_filename doc;
                    content_preview := preview;
                    relevance_score := relevance;
                    matches := matches |} ]
  else results.

Definition fixed_search_documents {embedder}
    (st : fixed_model_state embedder) (query : str) (limit : Z)
    : gmap string value :=
  if negb (truthy (fixed_documents st)) then
    {[ "results" := VHits [];
       "total_documents" := VInt 0;
       "query" := VStr query ]}
  else
    let query_lower := lower query in
    let results :=
      foldl (fixed_search_step query_lower) [] (fixed_documents st) in
    let results := stable_sort by_relevance results in
    {[ "results" := VHits (slice_to results limit);
       "total_documents" := VInt (len (fixed_documents st));
       "query" := VStr query ]}.

End Lower.

Arguments embedding_model {embedder} _.
Arguments loaded {embedder} _.
Arguments documents {embedder} _.
Arguments ModelState {embedder} _ _ _.
Arguments fixed_embedding_model {embedder} _.
Arguments fixed_loaded {embedder} _.
Arguments fixed_documents {embedder} _.
Arguments FixedModelState {embedder} _ _ _.

End KeywordSearch.

(** ** [src/nlp/processor.py]: the embedding provider *)

Module Nlp.

Inductive dtype := float32 | float64.

Section Processor.

(** The elements of an array, the element [0.0], and numpy's conversion
    of one element to a dtype. *)
Context {scalar : Type}.
Variable zero : scalar.
Variable cast : dtype -> scalar -> scalar.

Record ndarray := NdArray {
  arr_dtype : dtype;
  arr_data : list scalar
}.

(** [np.zeros(n, dtype=dt)] *)
Definition zeros (n : nat) (dt : dtype) : ndarray :=
  {| arr_dtype := dt; arr_data := replicate n zero |}.

(** [a.astype(dt)] *)
Definition astype (dt : dtype) (a : ndarray) : ndarray :=
  {| arr_dtype := dt; arr_data := map (cast dt) (arr_data a) |}.

(** [self.embedder.encode]: the sentence transformer, which returns the
    rows it computed for the texts, or raises. *)
Variable encode : list str -> outcome (list ndarray).

Definition generate_embeddings (text : str) : ndarray :=
  match encode [text] with
  | Ok (embeddings :: _) => astype float32 embeddings
  | Ok [] => zeros 384 float32
  | Raise _ => zeros 384 float32
  end.

Definition generate_batch_embeddings (texts : list str) : list ndarray :=
  match encode texts with
  | Ok embeddings => map (astype float32) embeddings
  | Raise _ => map (fun _ => zeros 384 float32) texts
  end.

End Processor.

Arguments ndarray : clear implicits.

End Nlp.

(** ** [src/database/vector_db.py]: the vector index *)

Module VectorDb.

(** JSON values; a JSON text held in a column stands for the value it
    encodes. *)
#[local] Unset Elimination Schemes.
Inductive json :=
| JNull
| JBool (b : bool)
| JNum (n : Z)
| JStr (s : str)
| JList (l : list json)
| JDict (d : list (string * json)).
#[local] Set Elimination Schemes.

Section Database.

(** What sqlite-vec provides: the bytes of an array
    ([ndarray.tobytes()]), whether the [vec0] table takes them as a
    [FLOAT[384]] vector, and the [distance] column of a [MATCH]. *)
Context {blob : Type}.
Variable vec_valid : blob -> bool.
Variable vec_distance : blob -> blob -> Q.

Record document_row := DocumentRow {
  id : Z;
  filename : str;
  content : str;
  cleaned_content : json;
  tokens : json;
  entities : json;
  keywords : json;
  word_count : json;
  metadata : option json
}.

Record embedding_row := EmbeddingRow {
  document_id : Z;
  embedding : blob
}.

(** A row of [search_queries]; [None] is the NULL of a column that the
    [INSERT] does not name. *)
Record search_query_row := SearchQueryRow {
  query : option str;
  query_embedding : blob;
  results_count : Z
}.

(** The tables the retrieval code uses, without their timestamp columns
    ([chat_history] is not among them); [documents_seq] is the
    AUTOINCREMENT counter of [documents]. *)
Record tables := Tables {
  documents : list document_row;
  documents_seq : Z;
  document_embeddings : list embedding_row;
  search_queries : list search_query_row
}.

(** A connection between [setup_database] and [close]: the committed
    tables and the tables as this connection sees them, which include
    the writes of its open transaction. *)
Record connection := Connection {
  committed : tables;
  working : tables
}.

(** Code that runs against the connection and may raise. *)
Definition M (A : Type) : Type := connection -> connection * outcome A.

Definition ret {A} (a : A) : M A := fun c => (c, Ok a).
Definition throw {A} (e : exn) : M A := fun c => (c, Raise e).
Definition bind {A B} (m : M A) (k : A -> M B) : M B :=
  fun c => match m c with
           | (c', Ok a) => k a c'
           | (c', Raise e) => (c', Raise e)
           end.
Definition try_except {A} (body : M A) (handler : exn -> M A) : M A :=
  fun c => match body c with
           | (c', Ok a) => (c', Ok a)
           | (c', Raise e) => handler e c'
           end.

Notation "x <- m ;; k" := (bind m (fun x => k))
  (at level 100, m at next level, right associativity).
Notation "m ;;; k" := (bind m (fun _ => k))
  (at level 100, right associativity).

(** A statement fails when the storage layer does ([fault]), or for a
    reason of its own. *)
Definition storage (fault : option exn) : M unit :=
  match fault with
  | Some e => throw e
  | None => ret tt
  end.

(** The writes of a statement go to the open transaction. *)
Definition write (f : tables -> tables) : M unit :=
  fun c => ({| committed := committed c; working := f (working c) |}, Ok tt).

Definition read {A} (f : tables -> A) : M A :=
  fun c => (c, Ok (f (working c))).

(** [INSERT INTO documents ...]; returns [cursor.lastrowid]. *)
Definition insert_document (fault : option exn) (row : Z -> document_row)
    : M Z :=
  storage fault ;;;
  last <- read documents_seq ;;
  write (fun t =>
    {| documents := documents t ++ [row (last + 1)];
       documents_seq := last + 1;
       document_embeddings := document_embeddings t;
       search_queries := search_queries t |}) ;;;
  ret (last + 1).

(** [INSERT INTO document_embeddings ...]: refused for a vector of the
    wrong dimension and for a primary key already present. *)
Definition insert_embedding (fault : option exn) (doc : Z) (v : blob)
    : M unit :=
  storage fault ;;;
  stored <- read document_embeddings ;;
  if negb (vec_valid v) then
    throw (SqliteError "Dimension mismatch for inserted vector")
  else if existsb (fun e => document_id e =? doc) stored then
    throw (SqliteError "UNIQUE constraint failed on document_embeddings primary key")
  else
    write (fun t =>
      {| documents := documents t;
         documents_seq := documents_seq t;
         document_embeddings :=
           document_embeddings t ++ [ {| document_id := doc; embedding := v |} ];
         search_queries := search_queries t |}).

(** [INSERT INTO search_queries ...]: the table declares
    [query TEXT NOT NULL], so a row without a query is refused. *)
Definition insert_search_query (fault : option exn) (row : search_query_row)
    : M unit :=
  storage fault ;;;
  match query row with
  | None =>
      throw (SqliteError "NOT NULL constraint failed: search_queries.query")
  | Some _ =>
      write (fun t =>
        {| documents := documents t;
           documents_seq := documents_seq t;
           document_embeddings := document_embeddings t;
           search_queries := search_queries t ++ [row] |})
  end.

(** [self.connection.commit()]; a commit that fails leaves the
    transaction open. *)
Definition commit (fault : option exn) : M unit :=
  storage fault ;;;
  (fun c => ({| committed := working c; working := working c |}, Ok tt)).

(** [self.connection.rollback()] *)
Definition rollback : M unit :=
  fun c => ({| committed := committed c; working := committed c |}, Ok tt).

(** [dict.get(key, default)] *)
Definition get (d : gmap string json) (key : string) (dflt : json) : json :=
  default dflt (d !! key).

(** Where the storage layer fails during one insert, if it does. *)
Record insert_faults := InsertFaults {
  at_insert_document : option exn;
  at_insert_embedding : option exn;
  at_commit : option exn
}.

Definition add_document_with_embeddings (faults : insert_faults)
    (filename content : str) (processed_data : gmap string json)
    (embedding : blob) (metadata : option (list (string * json)))
    : M Z :=
  try_except
    (document_id <-
       insert_document (at_insert_document faults) (fun new_id =>
         {| id := new_id;
            filename := filename;
            content := content;
            cleaned_content :=
              get processed_data "cleaned_content" (JStr content);
            tokens := get processed_data "tokens" (JList []);
            entities := get processed_data "entities" (JList []);
            keywords := get processed_data "keywords" (JList []);
            word_count :=
              get processed_data "word_count" (JNum (len (split content)));
            metadata :=
              match metadata with
              | Some m => if truthy m then Some (JDict m) else None
              | None => None
              end |}) ;;
     insert_embedding (at_insert_embedding faults) document_id embedding ;;;
     commit (at_commit faults) ;;;
     ret document_id)
    (fun e => rollback ;;; throw e).

Record SearchResult := MkSearchResult {
  result_document_id : Z;
  result_filename : str;
  result_content : str;
  result_metadata : json;
  distance : Q;
  similarity_score : Q
}.

(** Where the storage layer fails during one search, if it does. *)
Record search_faults := SearchFaults {
  at_log_insert : option exn;
  at_log_commit : option exn;
  at_select : option exn
}.

(** The [INSERT] names the columns [query_embedding] and [results_count]
    only: the column [query] of its row is NULL. *)
Definition _log_search_query (faults : search_faults)
    (query_embedding : blob) (expected_results : Z) : M unit :=
  try_except
    (insert_search_query (at_log_insert faults)
       (SearchQueryRow None query_embedding expected_results) ;;;
     commit (at_log_commit faults))
    (fun _ => ret tt).

(** [FROM document_embeddings e JOIN documents d ON e.document_id = d.id],
    each row with the distance of its vector to the query. *)
Definition joined (t : tables) (q : blob) : list (document_row * Q) :=
  e ← document_embeddings t;
  d ← List.filter (fun d => id d =? document_id e) (documents t);
  [(d, vec_distance (embedding e) q)].

Definition Qltb (x y : Q) : bool := negb (Qle_bool y x).

(** [LIMIT n]: a negative [n] is no limit. *)
Definition sql_limit {A} (n : Z) (rows : list A) : list A :=
  if n <? 0 then rows else take (Z.to_nat n) rows.

(** How a [SELECT] puts a nearest-neighbour [MATCH] to a [vec0] table:
    whether the table is joined to another one, whether the [WHERE] clause
    has a [k = ?] term, and whether the statement has a [LIMIT]. *)
Record knn_statement := KnnStatement {
  joins_a_table : bool;
  k_constraint : bool;
  limit_clause : bool
}.

(** A [vec0] table answers a [MATCH] only when it is told how many
    neighbours to find: by a [k = ?] term, or by the [LIMIT], which SQLite
    hands to a virtual table only when that table is the whole [FROM]
    clause. *)
Definition vec0_answers (s : knn_statement) : bool :=
  k_constraint s || (limit_clause s && negb (joins_a_table s)).

(** The statement of [semantic_search]:
    [FROM document_embeddings e JOIN documents d ... WHERE e.embedding
    MATCH ? AND e.distance < ? ORDER BY e.distance LIMIT ?]. *)
Definition search_statement : knn_statement :=
  {| joins_a_table := true; k_constraint := false; limit_clause := true |}.

(** The [SELECT] of [semantic_search]: the rows it asks for, which the
    [vec0] table refuses to look up. *)
Definition select_nearest (fault : option exn) (q : blob)
    (distance_threshold : Q) (limit : Z) : M (list (document_row * Q)) :=
  storage fault ;;;
  rows <- read (fun t => joined t q) ;;
  if negb (vec0_answers search_statement) then
    throw (SqliteError "A LIMIT or 'k = ?' constraint is required on vec0 knn queries.")
  else if negb (vec_valid q) then
    throw (SqliteError "Dimension mismatch for query vector")
  else
    ret (sql_limit limit
           (stable_sort (fun a b => Qle_bool a.2 b.2)
              (List.filter (fun r => Qltb r.2 distance_threshold) rows))).

Definition to_result (row : document_row * Q) : SearchResult :=
  let (d, distance) := row in
  {| result_document_id := id d;
     result_filename := filename d;
     result_content := content d;
     result_metadata :=
       match metadata d with
       | Some m => m
       | None => JDict []
       end;
     distance := distance;
     similarity_score :=
       (if Qltb 0 (1 - distance) then 1 - distance else 0)%Q |}.

Definition semantic_search (faults : search_faults)
    (query_embedding : blob) (limit : Z) (distance_threshold : Q)
    : M (list SearchResult) :=
  try_except
    (_log_search_query faults query_embedding limit ;;;
     rows <- select_nearest (at_select faults) query_embedding
               distance_threshold limit ;;
     ret (map to_result rows))
    (fun _ => ret []).

(** The defaults of the signature: [limit = 5],
    [distance_threshold = 1.5]. *)
Definition semantic_search_default (faults : search_faults)
    (query_embedding : blob) : M (list SearchResult) :=
  semantic_search faults query_embedding 5 (3 # 2).

(** No embedding row without its document row, and no document row
    without its embedding row. *)
Definition no_orphans (t : tables) : bool :=
  forallb (fun e => existsb (fun d => id d =? document_id e) (documents t))
          (document_embeddings t)
  && forallb (fun d => existsb (fun e => document_id e =? id d)
                               (document_embeddings t))
             (documents t).

End Database.

Arguments embedding_row : clear implicits.
Arguments search_query_row : clear implicits.
Arguments tables : clear implicits.
Arguments connection : clear implicits.
Arguments M : clear implicits.

End VectorDb.

(** ** [src/backend/app.py] and [fixed_backend.py]: uploads and logins *)

Module Endpoints.

Import KeywordSearch.

(** [HTTPException(status_code=..., detail=...)] *)
Inductive http_error := HTTPException (status_code : Z) (detail : str).

(** [str(n)] of an integer, as the f-strings use it. *)
Definition str_of_int (n : Z) : str :=
  lit (NilZero.string_of_int (Z.to_int n)).

(** [str(e)] of an exception: its message. *)
Definition str_of_exn (e : exn) : str :=
  match e with
  | ValueError msg | IndexError msg | RuntimeError msg | SqliteError msg =>
      lit msg
  end.

Section Uploads.

(** The language detector: whether its import succeeded, and [detect],
    which returns a language code or raises. *)
Variable detector_available : bool.
Variable detect : str -> outcome str.

(** *** [src/backend/app.py]

    [now] is [int(time.time())].  The stored dictionary also holds the
    keys [uploaded_at] and [processed], which no function reads. *)
Definition upload_document {embedder} (now : Z) (st : model_state embedder)
    (filename content : str)
    : model_state embedder * (http_error + gmap string value) :=
  let doc_id :=
    lit "doc_" ++ str_of_int now ++ lit "_" ++ str_of_int (len (documents st)) in
  let word_count := len (split content) in
  let detected_lang :=
    if detector_available then
      match detect (slice_to content 500) with
      | Ok code => code
      | Raise _ => lit "unknown"
      end
    else lit "unknown" in
  match chunk_document_default content with
  | Raise e => (st, inl (HTTPException 500 (str_of_exn e)))
  | Ok chunks =>
      let document :=
        {| document_id := doc_id;
           filename := filename;
           content := content;
           chunks := chunks;
           word_count := word_count;
           language := detected_lang |} in
      ({| embedding_model := embedding_model st;
          loaded := loaded st;
          documents := documents st ++ [document] |},
       inr {[ "document_id" := VStr doc_id;
              "filename" := VStr filename;
              "language" := VStr detected_lang;
              "word_count" := VInt word_count;
              "chunks_created" := VInt (len chunks);
              "status" := VStr (lit "processed") ]})
  end.

(** *** [fixed_backend.py]

    [uploaded_at] is [datetime.now().isoformat()]; the stored dictionary
    is also the response.  No statement of the [try] block raises. *)
Definition fixed_upload_document {embedder} (uploaded_at : str)
    (st : fixed_model_state embedder) (filename content : str)
    : fixed_model_state embedder * gmap string value :=
  let doc_id := lit "doc_" ++ str_of_int (len (fixed_documents st)) in
  let language :=
    if detector_available then
      match detect (slice_to content 500) with
      | Ok code => code
      | Raise _ => lit "auto-detected"
      end
    else lit "unknown" in
  let document :=
    {| fixed_document_id := doc_id;
       fixed_filename := filename;
       fixed_content := content;
       fixed_word_count := len (split content);
       fixed_language := language;
       chunks_created := Z.max 1 (len content / 500) |} in
  ({| fixed_embedding_model := fixed_embedding_model st;
      fixed_loaded := fixed_loaded st;
      fixed_documents := fixed_documents st ++ [document] |},
   {[ "document_id" := VStr doc_id;
      "filename" := VStr filename;
      "content" := VStr content;
      "word_count" := VInt (len (split content));
      "language" := VStr language;
      "chunks_created" := VInt (Z.max 1 (len content / 500));
      "uploaded_at" := VStr uploaded_at ]}).

End Uploads.

(** *** [login]

    The values of a login response: strings and the [user] dictionary. *)
Inductive login_value :=
| LStr (s : str)
| LUser (user : gmap string str).

(** [if username and password]: both keys present and not empty. *)
Definition given (field : option str) : bool :=
  match field with
  | Some s => truthy s
  | None => false
  end.

(** [src/backend/app.py]; [now] is [int(time.time())]. *)
Definition login (now : Z) (credentials : gmap string str)
    : http_error + gmap string login_value :=
  let username := credentials !! "username" in
  let password := credentials !! "password" in
  match username with
  | Some name =>
      if given username && given password then
        inr {[ "access_token" :=
                 LStr (lit "demo_token_" ++ name ++ lit "_" ++ str_of_int now);
               "token_type" := LStr (lit "bearer");
               "user" := LUser {[ "username" := name;
                                  "preferred_language" := lit "en" ]} ]}
      else inl (HTTPException 400 (lit "Username and password required"))
  | None => inl (HTTPException 400 (lit "Username and password required"))
  end.

(** [fixed_backend.py] *)
Definition fixed_login (credentials : gmap string str)
    : http_error + gmap string login_value :=
  let username := credentials !! "username" in
  let password := credentials !! "password" in
  match username with
  | Some name =>
      if given username && given password then
        inr {[ "access_token" := LStr (lit "fixed_token_" ++ name);
               "token_type" := LStr (lit "bearer");
               "user" := LUser {[ "username" := name ]} ]}
      else inl (HTTPException 400 (lit "Username and password required"))
  | None => inl (HTTPException 400 (lit "Username and password required"))
  end.

End Endpoints.

(** ** [src/nlp/processor.py]: preprocessing *)

Module NlpPipeline.

Import Nlp.

(** What spaCy returns for a text: tokens, named entities and sentences,
    with the attributes [preprocess_text] reads. *)
Record token := Token {
  token_text : str;
  lemma_ : str;
  is_stop : bool;
  is_punct : bool;
  is_space : bool
}.

Record span := Span {
  span_text : str;
  label_ : str;
  start_char : Z;
  end_char : Z
}.

Record spacy_doc := SpacyDoc {
  doc_tokens : list token;
  ents : list span;
  sents : list str
}.

(** One dictionary of the [entities] list. *)
Record entity := Entity {
  entity_text : str;
  entity_label : str;
  entity_description : option str;
  entity_start : Z;
  entity_end : Z
}.

Section Pipeline.

Context {scalar : Type}.
Variable zero : scalar.
Variable cast : dtype -> scalar -> scalar.
Variable encode : list str -> outcome (list (ndarray scalar)).

(** [self.nlp], which may raise; [spacy.explain]; [str.lower]. *)
Variable nlp : str -> outcome spacy_doc.
Variable explain : str -> option str.
Variable lower : str -> str.

Record ProcessedText := MkProcessedText {
  original_text : str;
  cleaned_text : str;
  tokens : list str;
  entities : list entity;
  embeddings : ndarray scalar;
  sentences : list str
}.

Definition preprocess_text (text : str) : ProcessedText :=
  match nlp text with
  | Ok doc =>
      let cleaned_text := join (lit " ") (split text) in
      let tokens :=
        map (fun t => lower (lemma_ t))
            (List.filter
               (fun t => negb (is_stop t) && negb (is_punct t)
                         && negb (is_space t) && (2 <? len (token_text t)))
               (doc_tokens doc)) in
      let entities :=
        map (fun ent =>
               {| entity_text := span_text ent;
                  entity_label := label_ ent;
                  entity_description := explain (label_ ent);
                  entity_start := start_char ent;
                  entity_end := end_char ent |})
            (ents doc) in
      let sentences := map strip (sents doc) in
      let embeddings := generate_embeddings zero cast encode cleaned_text in
      {| original_text := text;
         cleaned_text := cleaned_text;
         tokens := tokens;
         entities := entities;
         embeddings := embeddings;
         sentences := sentences |}
  | Raise _ =>
      let embeddings := generate_embeddings zero cast encode text in
      {| original_text := text;
         cleaned_text := text;
         tokens := [];
         entities := [];
         embeddings := embeddings;
         sentences := [text] |}
  end.

End Pipeline.

End NlpPipeline.

(** ** [src/backend/app.py]: cleaning a model response *)

Module ResponseCleaning.

(** [s.replace(old, new)]: the occurrences of [old] are replaced from the
    left and do not overlap; [skip] characters still belong to the last
    occurrence.  An empty [old] matches before every character and at the
    end. *)
Fixpoint replace_from (old new : str) (skip : nat) (s : str) : str :=
  match s with
  | [] => []
  | c :: s' =>
      match skip with
      | S k => replace_from old new k s'
      | O => if startswith old s
             then new ++ replace_from old new (Nat.pred (length old)) s'
             else c :: replace_from old new 0 s'
      end
  end.

Definition replace (s old new : str) : str :=
  match old with
  | [] => new ++ concat (map (fun c => c :: new) s)
  | _ => replace_from old new 0 s
  end.

(** [s.split(sep)] for a separator of one character: every occurrence
    separates two fields, which may be empty. *)
Fixpoint split_on (sep : char) (s : str) : list str :=
  match s with
  | [] => [[]]
  | c :: s' =>
      if (c =? sep)%N then [] :: split_on sep s'
      else match split_on sep s' with
           | field :: fields => (c :: field) :: fields
           | [] => [[c]]
           end
  end.

(** The character ['\n']. *)
Definition newline : char := 10%N.

(** The body of the loop over the lines; [cleaned_lines[-2:]] are the last
    two lines kept so far. *)
Definition clean_step (cleaned_lines : list str) (line : str) : list str :=
  let line := strip line in
  if truthy line
     && negb (bool_decide
                (line ∈ slice cleaned_lines (-2) (len cleaned_lines)))
  then cleaned_lines ++ [line]
  else cleaned_lines.

Section Fallback.

(** [generate_enhanced_fallback_response], which picks one of six canned
    texts by the keywords of the message. *)
Variable generate_enhanced_fallback_response : str -> str -> str.

Definition clean_model_response (response original_message : str) : str :=
  if negb (truthy response) then []
  else
    let response :=
      replace (replace response (lit "Human:") []) (lit "Assistant:") [] in
    let lines := split_on newline response in
    let cleaned_lines := foldl clean_step [] lines in
    let response := join [newline] cleaned_lines in
    if len (strip response) <? 10
    then generate_enhanced_fallback_response original_message (lit "en")
    else strip response.

End Fallback.

End ResponseCleaning.

(** * Vocabulary of the properties *)

(** ** Words and windows *)

Definition nonspace (c : char) : Prop := isspace c = false.

(** A word: not empty and free of whitespace. *)
Definition word (w : str) : Prop := w <> [] /\ Forall nonspace w.

(** A string whose first character is not whitespace. *)
Definition starts_nonspace (s : str) : Prop :=
  match s with
  | c :: _ => nonspace c
  | [] => False
  end.

(** The [k]-th sliding window over the words: [chunk_size] words, starting
    [k] steps into the stream. *)
Definition window (words : list str) (chunk_size step : Z) (k : nat) : list str :=
  slice words (Z.of_nat k * step) (Z.of_nat k * step + chunk_size).

(** The words of chunk [k] that no earlier chunk holds: all of the first
    chunk, and the later ones without their first [overlap] words. *)
Definition unique_span (overlap : Z) (k : nat) (chunk : str) : list str :=
  match k with
  | O => split chunk
  | S _ => drop (Z.to_nat overlap) (split chunk)
  end.

(** ** Rows of the index *)

Module IndexTerms.

Import VectorDb.

(** The rows the [SELECT] of [semantic_search] asks for: those of the
    join within the threshold, by ascending distance, cut by the [LIMIT]. *)
Definition nearest_rows {blob : Type}
    (vec_distance : blob -> blob -> Q) (t : tables blob) (q : blob)
    (distance_threshold : Q) (limit : Z) : list (document_row * Q) :=
  sql_limit limit
    (stable_sort (fun a b => Qle_bool a.2 b.2)
       (List.filter (fun r => Qltb r.2 distance_threshold)
          (joined vec_distance t q))).

End IndexTerms.

(** ** Hits of the keyword search *)

Module SearchTerms.

Import KeywordSearch.

(** Hits come out in descending order of their relevance score. *)
Definition ranked (hits : list hit) : Prop :=
  StronglySorted (fun a b => relevance_score b <= relevance_score a) hits.

(** The chunks of a document that contain the query, case folded. *)
Definition matching_chunks (lower : str -> str) (query : str) (doc : document) : list str :=
  filter (fun chunk => Is_true (contains (lower query) (lower chunk)))
         (chunks doc).

(** What [src/backend/app.py] puts into a hit. *)
Definition app_hit (lower : str -> str) (docs : list document) (query : str) (h : hit) : Prop :=
  exists doc,
    doc ∈ docs /\
    hit_filename h = filename doc /\
    matches h = len (matching_chunks lower query doc) /\
    1 <= matches h /\
    relevance_score h = Z.min (85 + matches h * 10) 100.

(** What [fixed_backend.py] puts into a hit. *)
Definition fixed_hit (lower : str -> str) (docs : list fixed_document)
    (query : str) (h : hit) : Prop :=
  exists doc,
    doc ∈ docs /\
    hit_filename h = fixed_filename doc /\
    contains (lower query) (lower (fixed_content doc)) = true /\
    matches h = count (lower (fixed_content doc)) (lower query) /\
    relevance_score h = Z.min 90 (60 + matches h * 10).

End SearchTerms.

(** * Inputs to run the model on *)


Definition fox_text : str :=
  lit "The quick brown fox jumps. The lazy dog sleeps.".

(** An instance of the sqlite-vec primitives, to run the model on: vectors
    of 384 rationals under the L1 distance. *)
Module ExampleIndex.

Import VectorDb.

Definition vec_valid (v : list Q) : bool := Nat.eqb (length v) 384.

Definition vec_distance (a b : list Q) : Q :=
  foldr Qplus 0%Q (zip_with (fun x y => Qabs (x - y)) a b).

(** The vector [(x, 0, ..., 0)]. *)
Definition vec (x : Q) : list Q := x :: replicate 383 0%Q.

Definition row (n : Z) (name : string) : document_row :=
  {| id := n; filename := lit name; content := lit "text";
     cleaned_content := JStr (lit "text"); tokens := JList [];
     entities := JList []; keywords := JList [];
     word_count := JNum 1; metadata := None |}.

Definition empty_tables : tables (list Q) :=
  {| documents := []; documents_seq := 0;
     document_embeddings := []; search_queries := [] |}.

Definition empty_index : connection (list Q) :=
  {| committed := empty_tables; working := empty_tables |}.

(** Four documents at distances 0.2, 2, 0.1 and 0.5 from [vec 0]. *)
Definition four_tables : tables (list Q) :=
  {| documents := [row 1 "a.txt"; row 2 "b.txt"; row 3 "c.txt"; row 4 "d.txt"];
     documents_seq := 4;
     document_embeddings :=
       [ {| document_id := 1; embedding := vec (1 # 5) |};
         {| document_id := 2; embedding := vec 2 |};
         {| document_id := 3; embedding := vec (1 # 10) |};
         {| document_id := 4; embedding := vec (1 # 2) |} ];
     search_queries := [] |}.

Definition four_index : connection (list Q) :=
  {| committed := four_tables; working := four_tables |}.

Definition no_search_faults : search_faults :=
  {| at_log_insert := None; at_log_commit := None; at_select := None |}.

Definition commit_fails : insert_faults :=
  {| at_insert_document := None; at_insert_embedding := None;
     at_commit := Some (SqliteError "disk I/O error") |}.

End ExampleIndex.

Module ExampleSearch.

Import KeywordSearch.

(** Two documents whose chunks all contain ["x"]: two chunks in the
    first, five in the second. *)
Definition two_matches : document :=
  {| document_id := lit "doc_0"; filename := lit "two.txt";
     content := lit "x x"; chunks := replicate 2 (lit "x");
     word_count := 2; language := lit "en" |}.

Definition five_matches : document :=
  {| document_id := lit "doc_1"; filename := lit "five.txt";
     content := lit "x x x x x"; chunks := replicate 5 (lit "x");
     word_count := 5; language := lit "en" |}.

(** The state after a failed model load: no embedding model. *)
Definition without_embeddings : model_state unit :=
  {| embedding_model := None; loaded := false;
     documents := [two_matches; five_matches] |}.

End ExampleSearch.

(** Backends to run the model on; arrays of integers stand for the rows a
    sentence transformer returns. *)
Module ExampleBackend.

Import Nlp.

Definition cast (_ : dtype) (x : Z) : Z := x.

(** The row of one text: 384 times its length. *)
Definition embed (text : str) : ndarray Z :=
  NdArray float64 (replicate 384 (len text)).

(** A backend that encodes each text on its own. *)
Definition encode_each (texts : list str) : outcome (list (ndarray Z)) :=
  Ok (map embed texts).

(** A backend that is down. *)
Definition encode_down (texts : list str) : outcome (list (ndarray Z)) :=
  Raise (RuntimeError "model backend unavailable").

(** A backend that runs out of memory on more than one text. *)
Definition encode_small (texts : list str) : outcome (list (ndarray Z)) :=
  if (length texts <=? 1)%nat then Ok (map embed texts)
  else Raise (RuntimeError "CUDA out of memory").

End ExampleBackend.

(** ** Documents that match a query *)

Module MatchTerms.

Import KeywordSearch SearchTerms.

(** The documents with a chunk that contains the query
    ([src/backend/app.py]). *)
Definition matching_documents (lower : str -> str) (query : str)
    (docs : list document) : list document :=
  List.filter (fun doc => truthy (matching_chunks lower query doc)) docs.

(** The documents whose content contains the query ([fixed_backend.py]). *)
Definition fixed_matching_documents (lower : str -> str) (query : str)
    (docs : list fixed_document) : list fixed_document :=
  List.filter (fun doc => contains (lower query) (lower (fixed_content doc)))
              docs.

(** The hit that [src/backend/app.py] reports for a document: its file
    name, the number of its chunks that contain the query, and the capped
    score of that number. *)
Definition app_hit_of (lower : str -> str) (query : str) (h : hit)
    (doc : document) : Prop :=
  hit_filename h = filename doc /\
  matches h = len (matching_chunks lower query doc) /\
  relevance_score h = Z.min (85 + matches h * 10) 100.

(** The hit that [fixed_backend.py] reports for a document: its file
    name, the number of occurrences of the query in its content, and the
    capped score of that number. *)
Definition fixed_hit_of (lower : str -> str) (query : str) (h : hit)
    (doc : fixed_document) : Prop :=
  hit_filename h = fixed_filename doc /\
  matches h = count (lower (fixed_content doc)) (lower query) /\
  relevance_score h = Z.min 90 (60 + matches h * 10).

(** The number of hits that [results[:limit]] keeps out of [n]. *)
Definition kept (limit n : Z) : Z :=
  if limit <? 0 then Z.max 0 (n + limit) else Z.min limit n.

End MatchTerms.

(** States and detectors to run the uploads on. *)
Module ExampleUpload.

Import KeywordSearch.

(** A language detector that always raises. *)
Definition detect_fails (text : str) : outcome str :=
  Raise (RuntimeError "No features in text.").

(** A language detector that always answers English. *)
Definition detect_en (text : str) : outcome str := Ok (lit "en").

Definition no_documents : model_state unit :=
  {| embedding_model := None; loaded := false; documents := [] |}.

Definition fixed_no_documents : fixed_model_state unit :=
  {| fixed_embedding_model := None; fixed_loaded := false;
     fixed_documents := [] |}.

End ExampleUpload.

(** ** Lines of a cleaned response *)

(** A text with a character that is not whitespace at both ends. *)
Definition trimmed (s : str) : Prop :=
  starts_nonspace s /\ starts_nonspace (rev s).

(** No line equals the line before it or the one before that. *)
Definition no_recent_repeat (lines : list str) : Prop :=
  forall (i : nat) (a b : str),
    lines !! i = Some a ->
    lines !! S i = Some b \/ lines !! S (S i) = Some b ->
    a <> b.

(** What the loop of [clean_model_response] keeps: trimmed lines without a
    line break, none of which repeats one of the two lines before it. *)
Definition kept_lines (lines : list str) : Prop :=
  Forall (fun l => trimmed l /\ ResponseCleaning.newline ∉ l) lines /\
  no_recent_repeat lines.

(** A model response of four lines to clean, with ["|"] for the line
    break. *)
Definition raw_response : str :=
  map (fun c => if (c =? 124)%N then 10%N else c)
      (lit "Human: hello there friend|hello there friend| |Assistant: abc|abc").

(** * Properties *)

(** ** Words, [split], [join] and [strip] *)

Section Words.

Lemma flush_word cur ws :
  Forall nonspace cur -> Forall word ws -> Forall word (flush cur ws).
Proof.
  intros Hcur Hws. destruct cur as [|c cur]; simpl; [done|].
  constructor; [|done]. split.
  - intros E. apply (f_equal (@length _)) in E.
    rewrite length_app in E. simpl in E. lia.
  - apply Forall_app. split; [by apply Forall_rev; inversion Hcur|].
    inversion Hcur; subst. by repeat constructor.
Qed.

Lemma split_from_words s : forall cur,
  Forall nonspace cur -> Forall word (split_from cur s).
Proof.
  induction s as [|c s IH]; intros cur Hcur; simpl.
  - by apply flush_word.
  - destruct (isspace c) eqn:E.
    + apply flush_word; [done|]. by apply IH.
    + apply IH. by constructor.
Qed.

Lemma split_words s : Forall word (split s).
Proof. by apply split_from_words. Qed.

Lemma split_from_nonspace w : forall cur s,
  Forall nonspace w -> split_from cur (w ++ s) = split_from (rev w ++ cur) s.
Proof.
  induction w as [|c w IH]; intros cur s Hw; simpl; [done|].
  inversion Hw as [|? ? Hc Hw']; subst. rewrite Hc, IH by done.
  by rewrite <- app_assoc.
Qed.

Lemma flush_rev w ws : w <> [] -> flush (rev w) ws = w :: ws.
Proof.
  intros Hne. unfold flush. destruct (rev w) eqn:E.
  - apply (f_equal (@rev _)) in E. by rewrite rev_involutive in E.
  - by rewrite <- E, rev_involutive.
Qed.

Lemma split_word w : word w -> split w = [w].
Proof.
  intros [Hne Hw]. unfold split.
  rewrite <- (app_nil_r w) at 1. rewrite split_from_nonspace by done.
  rewrite app_nil_r. simpl. by apply flush_rev.
Qed.

Lemma split_word_space w s :
  word w -> split (w ++ lit " " ++ s) = w :: split s.
Proof.
  intros [Hne Hw]. unfold split.
  rewrite split_from_nonspace by done. rewrite app_nil_r. simpl.
  by apply flush_rev.
Qed.

(** Splitting what [join] built gives the words back. *)
Lemma split_join ws : Forall word ws -> split (join (lit " ") ws) = ws.
Proof.
  induction ws as [|w ws IH]; intros Hws; [done|].
  inversion Hws as [|? ? Hw Hws']; subst.
  destruct ws as [|w' ws]; [by apply split_word|].
  change (join (lit " ") (w :: w' :: ws))
    with (w ++ lit " " ++ join (lit " ") (w' :: ws)).
  rewrite split_word_space by done. by rewrite IH.
Qed.

Lemma lstrip_id s : starts_nonspace s -> lstrip s = s.
Proof. destruct s as [|c s]; simpl; [done|]. by intros ->. Qed.

Lemma starts_nonspace_app s t :
  starts_nonspace s -> starts_nonspace (s ++ t).
Proof. by destruct s. Qed.

Lemma word_starts w : word w -> starts_nonspace w.
Proof. intros [Hne Hw]. destruct w; [done|]. by inversion Hw. Qed.

Lemma word_rev w : word w -> word (rev w).
Proof.
  intros [Hne Hw]. split; [|by apply Forall_rev].
  intros E. apply (f_equal (@rev _)) in E. by rewrite rev_involutive in E.
Qed.

Lemma join_starts sep w ws : word w -> starts_nonspace (join sep (w :: ws)).
Proof.
  intros Hw. destruct ws; simpl; [|apply starts_nonspace_app];
    by apply word_starts.
Qed.

Lemma join_ends sep ws :
  ws <> [] -> Forall word ws -> starts_nonspace (rev (join sep ws)).
Proof.
  induction ws as [|w ws IH]; intros Hne Hws; [done|].
  inversion Hws as [|? ? Hw Hws']; subst.
  destruct ws as [|w' ws].
  - simpl. by apply word_starts, word_rev.
  - change (join sep (w :: w' :: ws))
      with (w ++ sep ++ join sep (w' :: ws)).
    rewrite !rev_app_distr, <- app_assoc.
    apply starts_nonspace_app. by apply IH.
Qed.

Lemma strip_join sep ws :
  Forall word ws -> strip (join sep ws) = join sep ws.
Proof.
  intros Hws. destruct ws as [|w ws]; [done|]. unfold strip.
  inversion Hws; subst.
  rewrite (lstrip_id (join sep (w :: ws))) by by apply join_starts.
  rewrite lstrip_id by by apply join_ends.
  apply rev_involutive.
Qed.

Lemma join_truthy sep w ws : word w -> truthy (join sep (w :: ws)) = true.
Proof.
  intros Hw. pose proof (join_starts sep w ws Hw) as H.
  by destruct (join sep (w :: ws)).
Qed.

(** Text made of whitespace only has no words. *)
Lemma split_whitespace s :
  Forall (fun c => isspace c = true) s -> split s = [].
Proof.
  unfold split. induction s as [|c s IH]; intros Hs; [done|].
  inversion Hs as [|? ? Hc Hs']; subst. simpl. rewrite Hc. simpl. by apply IH.
Qed.

End Words.

(** ** Slices and ranges *)

Section Slices.

Context {A : Type}.

(** With indices that are not negative a slice is a [take] of a [drop]. *)
Lemma slice_nonneg (l : list A) (a b : Z) :
  0 <= a -> 0 <= b ->
  slice l a b = take (Z.to_nat b - Z.to_nat a) (drop (Z.to_nat a) l).
Proof.
  intros Ha Hb. unfold slice, slice_index, len.
  destruct (Z.ltb_spec a 0); [lia|]. destruct (Z.ltb_spec b 0); [lia|].
  destruct (Z_lt_le_dec a (Z.of_nat (length l))) as [Hlt|Hge].
  - rewrite (Z.min_l a) by lia.
    destruct (Z_le_gt_dec b (Z.of_nat (length l))).
    + rewrite (Z.min_l b) by lia. f_equal. lia.
    + rewrite (Z.min_r b) by lia.
      rewrite !take_ge; [done| |]; rewrite length_drop; lia.
  - rewrite (Z.min_r a) by lia.
    rewrite !(drop_ge l) by lia. by rewrite !take_nil.
Qed.

Lemma slice_to_nonneg (l : list A) (b : Z) :
  0 <= b -> slice_to l b = take (Z.to_nat b) l.
Proof.
  intros Hb. unfold slice_to. rewrite slice_nonneg by lia.
  simpl. f_equal. lia.
Qed.

(** [l[:stop]] is a prefix of [l], whatever the sign of [stop]. *)
Lemma slice_to_take (l : list A) (b : Z) :
  slice_to l b = take (Z.to_nat (slice_index (len l) b)) l.
Proof.
  unfold slice_to, slice.
  replace (slice_index (len l) 0) with 0.
  - simpl. by rewrite Z.sub_0_r.
  - unfold slice_index, len. simpl. lia.
Qed.

End Slices.

Lemma range_length_nonneg (n step : Z) :
  0 < step ->
  range_length 0 n step = if 0 <? n then (n - 1) / step + 1 else 0.
Proof.
  intros Hs. unfold range_length. destruct (Z.ltb_spec 0 step); [|lia].
  destruct (0 <? n); [|done]. f_equal. f_equal. lia.
Qed.

Lemma range_forward (n step : Z) :
  0 < step ->
  range 0 n step =
    Ok (map (fun k : nat => Z.of_nat k * step)
            (seq 0 (Z.to_nat (range_length 0 n step)))).
Proof.
  intros Hs. unfold range. destruct (Z.eqb_spec step 0); [lia|]. done.
Qed.

Lemma range_backward (n step : Z) :
  0 <= n -> step < 0 -> range 0 n step = Ok [].
Proof.
  intros Hn Hs. unfold range, range_length.
  destruct (Z.eqb_spec step 0); [lia|].
  destruct (Z.ltb_spec 0 step); [lia|].
  destruct (Z.ltb_spec n 0); [lia|]. done.
Qed.

Lemma range_zero_step (n : Z) :
  range 0 n 0 = Raise (ValueError "range() arg 3 must not be zero").
Proof. done. Qed.

(** Every index of a forward range from [0] lies below the bound. *)
Lemma range_length_bound (n step : Z) (k : nat) :
  0 < step -> (k < Z.to_nat (range_length 0 n step))%nat ->
  0 <= Z.of_nat k * step < n.
Proof.
  intros Hs Hk. rewrite range_length_nonneg in Hk by done.
  destruct (Z.ltb_spec 0 n); [|simpl in Hk; lia].
  assert (Z.of_nat k <= (n - 1) / step) by lia.
  pose proof (Z.mul_div_le (n - 1) step Hs). nia.
Qed.

(** The last window of a forward range reaches the bound. *)
Lemma range_length_cover (n step : Z) :
  0 < step -> 0 <= n -> n <= range_length 0 n step * step.
Proof.
  intros Hs Hn. rewrite range_length_nonneg by done.
  destruct (Z.ltb_spec 0 n); [|lia].
  pose proof (Z.mod_pos_bound (n - 1) step Hs).
  pose proof (Z.div_mod (n - 1) step). nia.
Qed.

(** ** The chunker *)

Section ChunkerFacts.

Variable words : list str.
Variables chunk_size step : Z.
Hypothesis words_ok : Forall word words.
Hypothesis size_pos : 0 < chunk_size.
Hypothesis step_pos : 0 < step.

Lemma window_nat k :
  window words chunk_size step k =
    take (Z.to_nat chunk_size) (drop (k * Z.to_nat step) words).
Proof.
  unfold window. rewrite slice_nonneg by nia.
  rewrite Z2Nat.inj_add, Z2Nat.inj_mul, Nat2Z.id by nia.
  f_equal. lia.
Qed.

Lemma window_words k : Forall word (window words chunk_size step k).
Proof. rewrite window_nat. by apply Forall_take, Forall_drop. Qed.

Lemma window_length k :
  len (window words chunk_size step k) =
    Z.max 0 (Z.min chunk_size (len words - Z.of_nat k * step)).
Proof.
  rewrite window_nat. unfold len. rewrite length_take, length_drop.
  rewrite Nat2Z.inj_min, Nat2Z.inj_sub_max, Nat2Z.inj_mul, !Z2Nat.id by lia.
  lia.
Qed.

Lemma split_window k :
  split (join (lit " ") (window words chunk_size step k)) =
    window words chunk_size step k.
Proof. apply split_join, window_words. Qed.

(** One turn of the loop at a start index inside the words appends the
    window that starts there. *)
Lemma chunk_step_inside chunks (k : nat) :
  Z.of_nat k * step < len words ->
  chunk_step words chunk_size chunks (Z.of_nat k * step) =
    chunks ++ [join (lit " ") (window words chunk_size step k)].
Proof.
  intros Hk. unfold chunk_step. fold (window words chunk_size step k).
  pose proof (window_words k) as Hw. pose proof (window_length k) as Hl.
  rewrite strip_join by done.
  destruct (window words chunk_size step k) as [|w ws] eqn:E.
  - unfold len in *. simpl in Hl. lia.
  - inversion Hw; subst. by rewrite join_truthy.
Qed.

Lemma foldl_chunk_step (ks : list nat) : forall chunks,
  Forall (fun k : nat => Z.of_nat k * step < len words) ks ->
  foldl (chunk_step words chunk_size) chunks
        (map (fun k : nat => Z.of_nat k * step) ks) =
    chunks ++ map (fun k => join (lit " ") (window words chunk_size step k)) ks.
Proof.
  induction ks as [|k ks IH]; intros chunks Hks; simpl.
  - by rewrite app_nil_r.
  - inversion Hks; subst. rewrite chunk_step_inside, IH by done.
    by rewrite <- app_assoc.
Qed.

(** The spans of the first [n] windows, put together, are a prefix of the
    words. *)
Lemma unique_spans_prefix (n : nat) :
  step <= chunk_size ->
  concat (imap (unique_span (chunk_size - step))
            (map (fun k => join (lit " ") (window words chunk_size step k))
                 (seq 0 n))) =
    take (match n with
          | O => 0
          | S m => m * Z.to_nat step + Z.to_nat chunk_size
          end)%nat words.
Proof.
  intros Hle. induction n as [|n IH]; [done|].
  rewrite seq_S, map_app, imap_app, concat_app, IH. simpl.
  rewrite app_nil_r, length_map, length_seq, Nat.add_0_r.
  destruct n as [|n]; simpl.
  - by rewrite split_window, window_nat.
  - rewrite split_window, window_nat.
    rewrite skipn_firstn_comm, drop_drop.
    replace (Z.to_nat chunk_size - Z.to_nat (chunk_size - step))%nat
      with (Z.to_nat step) by lia.
    replace (S n * Z.to_nat step + Z.to_nat (chunk_size - step))%nat
      with (n * Z.to_nat step + Z.to_nat chunk_size)%nat by lia.
    rewrite take_take_drop. f_equal. lia.
Qed.

End ChunkerFacts.

(** With a valid configuration the chunks are the windows, in order. *)
Lemma chunk_document_windows (content : str) (chunk_size overlap : Z) :
  0 <= overlap < chunk_size ->
  chunk_document content chunk_size overlap =
    Ok (map (fun k => join (lit " ")
                        (window (split content) chunk_size (chunk_size - overlap) k))
            (seq 0 (Z.to_nat (range_length 0 (len (split content))
                                (chunk_size - overlap))))).
Proof.
  intros Hv. unfold chunk_document. rewrite range_forward by lia.
  rewrite foldl_chunk_step; [done|apply split_words|lia|lia|].
  apply Forall_forall. intros k Hk. apply elem_of_seq in Hk.
  apply range_length_bound; lia.
Qed.



(** C4, as the code has it: no configuration is rejected as invalid.  With
    [overlap > chunk_size] the range of start indices is empty and the
    chunker returns the empty list of chunks for every input; with
    [overlap = chunk_size] the step of the range is zero and the call
    raises the [ValueError] of [range], again for every input. *)
Theorem chunk_document_overlap_not_below_size (content : str)
    (chunk_size overlap : Z) :
  (chunk_size < overlap -> chunk_document content chunk_size overlap = Ok []) /\
  (overlap = chunk_size ->
   chunk_document content chunk_size overlap =
     Raise (ValueError "range() arg 3 must not be zero")).
Proof.
  split.
  - intros H. unfold chunk_document.
    rewrite range_backward; [done|unfold len; lia|lia].
  - intros ->. unfold chunk_document. by rewrite Z.sub_diag, range_zero_step.
Qed.

Lemma chunk_document_overlap_not_below_size_witness :
  chunk_document (lit "a b c") 5 7 = Ok [] /\
  chunk_document (lit "a b c") 5 5 =
    Raise (ValueError "range() arg 3 must not be zero").
Proof.
  split.
  - apply (chunk_document_overlap_not_below_size (lit "a b c") 5 7). lia.
  - apply (chunk_document_overlap_not_below_size (lit "a b c") 5 5). reflexivity.
Defined.

(** C4 as stated fails: with [overlap = 7 >= chunk_size = 5] the chunker
    returns a list of chunks (the empty one) and does not fail. *)
Lemma chunk_document_invalid_configuration_counterexample :
  5 <= 7 /\ chunk_document (lit "a b c") 5 7 = Ok [].
Proof. split; [lia|reflexivity]. Qed.

(** C5, as the code has it: with [0 <= overlap < chunk_size], an empty or
    whitespace-only input gives no chunk; an input of at least one and at
    most [chunk_size - overlap] words gives exactly one chunk, which is the
    words of the input joined by single spaces; an input of more words
    gives at least two chunks. *)
Theorem chunk_document_short_input (content : str) (chunk_size overlap : Z) :
  0 <= overlap < chunk_size ->
  (Forall (fun c => isspace c = true) content ->
   chunk_document content chunk_size overlap = Ok []) /\
  (0 < len (split content) <= chunk_size - overlap ->
   chunk_document content chunk_size overlap =
     Ok [join (lit " ") (split content)]) /\
  (chunk_size - overlap < len (split content) ->
   exists first second rest,
     chunk_document content chunk_size overlap = Ok (first :: second :: rest)).
Proof.
  intros Hv. rewrite chunk_document_windows by done.
  rewrite range_length_nonneg by lia.
  split; [|split].
  - intros Hs. by rewrite split_whitespace.
  - intros [Hpos Hle]. destruct (Z.ltb_spec 0 (len (split content))); [|lia].
    rewrite Z.div_small by lia. simpl.
    rewrite window_nat by lia. simpl. rewrite drop_0.
    rewrite take_ge; [done|]. unfold len in *. lia.
  - intros Hlt. destruct (Z.ltb_spec 0 (len (split content))); [|lia].
    assert (1 <= (len (split content) - 1) / (chunk_size - overlap)) as Hq.
    { apply Z.div_le_lower_bound; lia. }
    destruct (Z.to_nat ((len (split content) - 1) / (chunk_size - overlap) + 1))
      as [|[|n]] eqn:E; [lia|lia|].
    simpl. by eexists _, _, _.
Qed.

Lemma chunk_document_short_input_witness :
  chunk_document (lit "  ") 3 1 = Ok [] /\
  chunk_document (lit " a  b ") 3 1 = Ok [lit "a b"] /\
  exists first second rest,
    chunk_document (lit "a b c") 3 1 = Ok (first :: second :: rest).
Proof.
  split; [|split].
  - apply (chunk_document_short_input (lit "  ") 3 1); [lia|].
    repeat constructor.
  - apply (chunk_document_short_input (lit " a  b ") 3 1); [lia|].
    vm_compute. split; [reflexivity|discriminate].
  - apply (chunk_document_short_input (lit "a b c") 3 1); [lia|].
    reflexivity.
Defined.

(** C5 as stated fails twice.  Three words, fewer than [chunk_size = 5],
    give three chunks when the step is [5 - 4 = 1]; and the one chunk of
    ["a  b"] is ["a b"], not the trimmed input. *)
Lemma chunk_document_short_input_counterexample :
  (0 < len (split (lit "a b c")) < 5 /\
   chunk_document (lit "a b c") 5 4 = Ok [lit "a b c"; lit "b c"; lit "c"]) /\
  (0 < len (split (lit "a  b")) < 3 /\
   chunk_document (lit "a  b") 3 0 = Ok [lit "a b"] /\
   strip (lit "a  b") = lit "a  b" /\
   lit "a b" <> lit "a  b").
Proof.
  repeat split; try reflexivity; discriminate.
Qed.

(** C6: with [0 <= overlap < chunk_size], the spans of the chunks that are
    not shared with an earlier chunk (the whole first chunk, every later
    chunk without its first [overlap] words), put together in chunk order,
    are the words of the input, in order, each once. *)
Theorem chunk_document_coverage (content : str) (chunk_size overlap : Z) :
  0 <= overlap < chunk_size ->
  exists chunks,
    chunk_document content chunk_size overlap = Ok chunks /\
    concat (imap (unique_span overlap) chunks) = split content.
Proof.
  intros Hv. eexists. split; [by apply chunk_document_windows|].
  set (step := chunk_size - overlap).
  replace overlap with (chunk_size - step) at 1 by (unfold step; lia).
  rewrite unique_spans_prefix; [|apply split_words|lia|unfold step; lia..].
  pose proof (range_length_cover (len (split content)) step) as Hcover.
  pose proof (range_length_nonneg (len (split content)) step) as Hnn.
  destruct (Z.to_nat (range_length 0 (len (split content)) step))
    as [|m] eqn:E.
  - destruct (split content) as [|w ws]; [done|].
    unfold len in *. simpl length in *.
    destruct (Z.ltb_spec 0 (Z.of_nat (S (length ws)))); [|lia].
    assert (0 <= (Z.of_nat (S (length ws)) - 1) / step).
    { apply Z.div_pos; unfold step; lia. }
    unfold step in *. lia.
  - apply take_ge. unfold len, step in *.
    assert (range_length 0 (Z.of_nat (length (split content)))
              (chunk_size - overlap) = Z.of_nat (S m)) as Hm by lia.
    rewrite Hm in Hcover. nia.
Qed.

Lemma chunk_document_coverage_witness :
  exists chunks,
    chunk_document fox_text 4 1 = Ok chunks /\
    concat (imap (unique_span 1) chunks) = split fox_text.
Proof.
  apply (chunk_document_coverage fox_text 4 1). lia.
Defined.

(** ** Stable sorting *)

Section StableSort.

Context {A : Type} (before : A -> A -> bool) (R : A -> A -> Prop).
Hypothesis before_true : forall x y, before x y = true -> R x y.
Hypothesis before_false : forall x y, before x y = false -> R y x.
Hypothesis R_trans : forall x y z, R x y -> R y z -> R x z.

Lemma insert_sorted_Forall (P : A -> Prop) x l :
  P x -> Forall P l -> Forall P (insert_sorted before x l).
Proof.
  intros Hx Hl. induction Hl as [|y l Hy Hl IH]; simpl.
  - by constructor.
  - destruct (before x y); repeat constructor; done.
Qed.

Lemma insert_sorted_Permutation x l : insert_sorted before x l ≡ₚ x :: l.
Proof.
  induction l as [|y l IH]; simpl; [done|].
  destruct (before x y); [done|]. rewrite IH. apply Permutation_swap.
Qed.

Lemma stable_sort_Permutation l : stable_sort before l ≡ₚ l.
Proof.
  induction l as [|x l IH]; simpl; [done|].
  by rewrite insert_sorted_Permutation, IH.
Qed.

Lemma insert_sorted_sorted x l :
  StronglySorted R l -> StronglySorted R (insert_sorted before x l).
Proof.
  induction 1 as [|y l Hl IH Hy]; simpl.
  - by repeat constructor.
  - destruct (before x y) eqn:E.
    + constructor; [by constructor|].
      constructor; [by apply before_true|].
      eapply Forall_impl; [exact Hy|]. intros z Hz.
      eapply R_trans; [|exact Hz]. by apply before_true.
    + constructor; [done|].
      apply insert_sorted_Forall; [by apply before_false|done].
Qed.

Lemma stable_sort_sorted l : StronglySorted R (stable_sort before l).
Proof.
  induction l as [|x l IH]; simpl; [constructor|].
  by apply insert_sorted_sorted.
Qed.

Lemma stable_sort_Forall (P : A -> Prop) l :
  Forall P l -> Forall P (stable_sort before l).
Proof.
  intros Hl. induction Hl; simpl; [done|]. by apply insert_sorted_Forall.
Qed.

Lemma StronglySorted_prefix (n : nat) l :
  StronglySorted R l -> StronglySorted R (take n l).
Proof.
  intros Hl. revert n. induction Hl as [|y l Hl IH Hy]; intros [|n]; simpl;
    try constructor; [apply IH|by apply Forall_take].
Qed.

Lemma StronglySorted_map {B} (f : A -> B) (S : B -> B -> Prop) l :
  (forall x y, R x y -> S (f x) (f y)) ->
  StronglySorted R l -> StronglySorted S (map f l).
Proof.
  intros Hf. induction 1 as [|y l Hl IH Hy]; simpl; constructor; [done|].
  apply Forall_map. eapply Forall_impl; [exact Hy|]. intros z. apply Hf.
Qed.

End StableSort.

(** ** The vector index *)

Module VectorDbFacts.

Import VectorDb IndexTerms.

Lemma Qltb_lt (x y : Q) : Qltb x y = true -> (x < y)%Q.
Proof.
  unfold Qltb. intros H. apply Qnot_le_lt. intros Hle.
  apply Qle_bool_iff in Hle. by rewrite Hle in H.
Qed.

Lemma Qle_bool_false (x y : Q) : Qle_bool x y = false -> (y <= x)%Q.
Proof.
  intros H. apply Qlt_le_weak, Qnot_le_lt. intros Hle.
  apply Qle_bool_iff in Hle. by rewrite Hle in H.
Qed.

Lemma Forall_filter_true {A} (f : A -> bool) (l : list A) :
  Forall (fun x => f x = true) (List.filter f l).
Proof.
  induction l as [|x l IH]; simpl; [done|].
  destruct (f x) eqn:E; [by constructor|done].
Qed.

Lemma sql_limit_length {A} (n : Z) (rows : list A) :
  0 <= n -> len (sql_limit n rows) <= n.
Proof.
  intros Hn. unfold sql_limit, len. destruct (Z.ltb_spec n 0); [lia|].
  rewrite length_take. lia.
Qed.

Lemma sql_limit_Forall {A} (P : A -> Prop) (n : Z) (rows : list A) :
  Forall P rows -> Forall P (sql_limit n rows).
Proof.
  intros H. unfold sql_limit. destruct (n <? 0); [done|]. by apply Forall_take.
Qed.

Lemma sql_limit_sorted {A} (R : A -> A -> Prop) (n : Z) (rows : list A) :
  StronglySorted R rows -> StronglySorted R (sql_limit n rows).
Proof.
  intros H. unfold sql_limit. destruct (n <? 0); [done|].
  by apply StronglySorted_prefix.
Qed.

Section Facts.

Context {blob : Type}.
Variable vec_valid : blob -> bool.
Variable vec_distance : blob -> blob -> Q.

Lemma nearest_rows_capped t q thr limit :
  0 <= limit -> len (nearest_rows vec_distance t q thr limit) <= limit.
Proof. apply sql_limit_length. Qed.

Lemma nearest_rows_sorted t q thr limit :
  StronglySorted (fun a b => (a.2 <= b.2)%Q) (nearest_rows vec_distance t q thr limit).
Proof.
  apply sql_limit_sorted.
  apply stable_sort_sorted.
  - intros x y. apply Qle_bool_iff.
  - intros x y. apply Qle_bool_false.
  - intros x y z. apply Qle_trans.
Qed.

Lemma nearest_rows_within t q thr limit :
  Forall (fun r => (r.2 < thr)%Q) (nearest_rows vec_distance t q thr limit).
Proof.
  apply sql_limit_Forall, stable_sort_Forall.
  eapply Forall_impl; [apply Forall_filter_true|].
  intros r. apply Qltb_lt.
Qed.

Lemma joined_no_documents t q : documents t = [] -> joined vec_distance t q = [].
Proof.
  intros H. unfold joined. rewrite H.
  induction (document_embeddings t) as [|e es IH]; [done|]. by simpl.
Qed.

Lemma nearest_rows_no_documents t q thr limit :
  documents t = [] -> nearest_rows vec_distance t q thr limit = [].
Proof.
  intros H. unfold nearest_rows. rewrite joined_no_documents by done.
  simpl. unfold sql_limit. destruct (limit <? 0); [done|]. by rewrite take_nil.
Qed.

(** A search never raises: it returns the rows of its [SELECT], or the
    empty list when the [SELECT] failed. *)
Lemma semantic_search_cases faults q limit thr c c' r :
  semantic_search vec_valid vec_distance faults q limit thr c = (c', r) ->
  r = Ok [] \/
  r = Ok (map to_result (nearest_rows vec_distance (working c) q thr limit)).
Proof.
  unfold semantic_search, _log_search_query, select_nearest,
    insert_search_query, commit, try_except, bind, storage, read, write,
    ret, throw.
  destruct (at_log_insert faults), (at_log_commit faults),
    (at_select faults), (vec_valid q); simpl;
    intros [= <- <-]; auto.
Qed.

(** An insert that raises has rolled back to the committed tables. *)
Lemma add_document_raise faults filename content processed_data
    embedding metadata c c' e :
  add_document_with_embeddings vec_valid faults filename content
    processed_data embedding metadata c = (c', Raise e) ->
  committed c' = committed c /\ working c' = committed c.
Proof.
  unfold add_document_with_embeddings, insert_document, insert_embedding,
    commit, rollback, try_except, bind, storage, read, write, ret, throw.
  destruct (at_insert_document faults), (at_insert_embedding faults),
    (at_commit faults), (vec_valid embedding); simpl;
    repeat match goal with
           | |- context [if ?b then _ else _] => destruct b; simpl
           end;
    intros [= <- <-]; auto.
Qed.

End Facts.

End VectorDbFacts.

Module VectorDbClaims.

Import VectorDb IndexTerms VectorDbFacts.

Lemma to_result_distance (r : document_row * Q) : distance (to_result r) = r.2.
Proof. by destruct r. Qed.

(** C1: for every query vector, cap [limit >= 1] and distance threshold,
    [semantic_search] returns (it never raises) at most [limit] results,
    in ascending order of distance, and every result has a distance below
    the threshold, so that no row beyond the threshold is in the output. *)
Theorem semantic_search_capped_sorted_within {blob : Type}
    (vec_valid : blob -> bool) (vec_distance : blob -> blob -> Q)
    (faults : search_faults) (query_embedding : blob) (limit : Z)
    (distance_threshold : Q) (c : connection blob) :
  1 <= limit ->
  exists results,
    (semantic_search vec_valid vec_distance faults query_embedding limit
       distance_threshold c).2 = Ok results /\
    len results <= limit /\
    StronglySorted (fun a b => (distance a <= distance b)%Q) results /\
    Forall (fun r => (distance r < distance_threshold)%Q) results /\
    Forall (fun r => ~ (distance_threshold < distance r)%Q) results.
Proof.
  intros Hlimit.
  destruct (semantic_search vec_valid vec_distance faults query_embedding
              limit distance_threshold c) as [c' r] eqn:E.
  apply semantic_search_cases in E as [-> | ->]; simpl.
  - exists []. repeat split; try constructor. unfold len. simpl. lia.
  - eexists. split; [done|].
    pose proof (nearest_rows_within vec_distance (working c) query_embedding
                  distance_threshold limit) as Hin.
    repeat split.
    + unfold len. rewrite length_map. apply nearest_rows_capped. lia.
    + eapply StronglySorted_map; [|apply nearest_rows_sorted].
      intros x y. by rewrite !to_result_distance.
    + apply Forall_map. eapply Forall_impl; [exact Hin|].
      intros x. by rewrite to_result_distance.
    + apply Forall_map. eapply Forall_impl; [exact Hin|].
      intros x Hx. rewrite to_result_distance. by apply Qle_not_lt, Qlt_le_weak.
Qed.

Lemma semantic_search_capped_sorted_within_witness :
  exists results,
    (semantic_search ExampleIndex.vec_valid ExampleIndex.vec_distance
       ExampleIndex.no_search_faults (ExampleIndex.vec 0) 2 (3 # 2)
       ExampleIndex.four_index).2 = Ok results /\
    len results <= 2 /\
    StronglySorted (fun a b => (distance a <= distance b)%Q) results /\
    Forall (fun r => (distance r < 3 # 2)%Q) results /\
    Forall (fun r => ~ (3 # 2 < distance r)%Q) results.
Proof.
  apply (semantic_search_capped_sorted_within ExampleIndex.vec_valid
           ExampleIndex.vec_distance ExampleIndex.no_search_faults
           (ExampleIndex.vec 0) 2 (3 # 2) ExampleIndex.four_index).
  lia.
Defined.

(** C7: on an index without documents [semantic_search] returns the
    empty list, for every query, cap and threshold, and also when the
    storage layer fails during the search; it does not raise. *)
Theorem semantic_search_empty_index {blob : Type}
    (vec_valid : blob -> bool) (vec_distance : blob -> blob -> Q)
    (faults : search_faults) (query_embedding : blob) (limit : Z)
    (distance_threshold : Q) (c : connection blob) :
  documents (working c) = [] ->
  (semantic_search vec_valid vec_distance faults query_embedding limit
     distance_threshold c).2 = Ok [].
Proof.
  intros Hempty.
  destruct (semantic_search vec_valid vec_distance faults query_embedding
              limit distance_threshold c) as [c' r] eqn:E.
  apply semantic_search_cases in E as [-> | ->]; simpl; [done|].
  by rewrite nearest_rows_no_documents.
Qed.

Lemma semantic_search_empty_index_witness :
  (semantic_search ExampleIndex.vec_valid ExampleIndex.vec_distance
     ExampleIndex.no_search_faults (ExampleIndex.vec 0) 5 (3 # 2)
     ExampleIndex.empty_index).2 = Ok [].
Proof.
  apply (semantic_search_empty_index ExampleIndex.vec_valid
           ExampleIndex.vec_distance ExampleIndex.no_search_faults
           (ExampleIndex.vec 0) 5 (3 # 2) ExampleIndex.empty_index).
  reflexivity.
Defined.

(** C2, as the code has it: when the storage layer fails during an
    insert, at the insert of the document row, at the insert of the
    embedding row or at the commit, [add_document_with_embeddings] raises,
    and the exception is the one the failing statement raised, an
    [sqlite3] error that the handler re-raises as it is (there is no
    [StorageError]).  Whenever the call raises, the
    transaction has been rolled back: the committed tables and the tables
    the connection sees are the committed tables from before the call, so
    that an index without an orphan row (no embedding row without its
    document row, no document row without its embedding row) is still
    without one. *)
Theorem add_document_with_embeddings_atomic {blob : Type}
    (vec_valid : blob -> bool) (faults : insert_faults)
    (filename content : str) (processed_data : gmap string json)
    (embedding : blob) (metadata : option (list (string * json)))
    (c : connection blob) :
  let run := add_document_with_embeddings vec_valid faults filename content
               processed_data embedding metadata c in
  (forall e, at_insert_document faults = Some e -> run.2 = Raise e) /\
  (forall e, at_insert_document faults = None ->
             at_insert_embedding faults = Some e -> run.2 = Raise e) /\
  (forall e, at_insert_document faults = None ->
             at_insert_embedding faults = None ->
             at_commit faults = Some e ->
             run.2 = Raise e \/ exists msg, run.2 = Raise (SqliteError msg)) /\
  (forall e, run.2 = Raise e ->
             committed run.1 = committed c /\
             working run.1 = committed c /\
             (no_orphans (committed c) = true ->
              no_orphans (committed run.1) = true /\
              no_orphans (working run.1) = true)).
Proof.
  intros run. repeat split.
  - intros e He. subst run.
    unfold add_document_with_embeddings, insert_document, try_except, bind,
      storage, rollback, throw.
    by rewrite He.
  - intros e Hd He. subst run.
    unfold add_document_with_embeddings, insert_document, insert_embedding,
      try_except, bind, storage, read, write, rollback, ret, throw.
    by rewrite Hd, He.
  - intros e Hd He Hc. subst run.
    unfold add_document_with_embeddings, insert_document, insert_embedding,
      commit, try_except, bind, storage, read, write, rollback, ret, throw.
    rewrite Hd, He, Hc. simpl.
    destruct (vec_valid embedding); simpl; [|by eauto].
    match goal with
    | |- context [if ?b then _ else _] => destruct b; simpl; by eauto
    end.
  - destruct run as [c' r] eqn:E. simpl in H. subst r.
    by apply add_document_raise in E as [? ?].
  - destruct run as [c' r] eqn:E. simpl in H. subst r.
    by apply add_document_raise in E as [? ?].
  - destruct run as [c' r] eqn:E. simpl in *. subst r.
    apply add_document_raise in E as [-> ?]. done.
  - destruct run as [c' r] eqn:E. simpl in *. subst r.
    apply add_document_raise in E as [? ->]. done.
Qed.

Lemma add_document_with_embeddings_atomic_witness :
  let run := add_document_with_embeddings ExampleIndex.vec_valid
               ExampleIndex.commit_fails (lit "e.txt") (lit "some text") ∅
               (ExampleIndex.vec 1) None ExampleIndex.four_index in
  run.2 = Raise (SqliteError "disk I/O error") /\
  committed run.1 = ExampleIndex.four_tables /\
  working run.1 = ExampleIndex.four_tables /\
  no_orphans (committed run.1) = true /\
  no_orphans (working run.1) = true.
Proof.
  intros run.
  destruct (add_document_with_embeddings_atomic ExampleIndex.vec_valid
              ExampleIndex.commit_fails (lit "e.txt") (lit "some text") ∅
              (ExampleIndex.vec 1) None ExampleIndex.four_index)
    as (_ & _ & _ & Hroll).
  destruct (Hroll (SqliteError "disk I/O error")) as (Hc & Hw & Ho);
    [reflexivity|].
  destruct Ho as [Hoc How]; [reflexivity|].
  split; [reflexivity|]. split; [exact Hc|]. split; [exact Hw|].
  split; [exact Hoc|exact How].
Defined.

(** C2 as stated fails: the call does not fail with a [StorageError].
    When the commit of an insert fails with the [sqlite3] error
    ["disk I/O error"], the call raises that very exception: the handler
    rolls back and re-raises what it caught, and no other exception
    leaves the call. *)
Lemma add_document_with_embeddings_storage_error_counterexample :
  let run := add_document_with_embeddings ExampleIndex.vec_valid
               ExampleIndex.commit_fails (lit "e.txt") (lit "some text") ∅
               (ExampleIndex.vec 1) None ExampleIndex.four_index in
  run.2 = Raise (SqliteError "disk I/O error") /\
  (forall e, run.2 = Raise e -> e = SqliteError "disk I/O error").
Proof.
  intros run. split; [reflexivity|].
  intros e He. vm_compute in He. by injection He as <-.
Qed.

End VectorDbClaims.

(** ** Keyword search *)

Module SearchFacts.

Import KeywordSearch SearchTerms.

Lemma stable_sort_ranked hits : ranked (stable_sort by_relevance hits).
Proof.
  apply stable_sort_sorted; unfold by_relevance; intros; lia.
Qed.

Lemma slice_to_ranked hits limit : ranked hits -> ranked (slice_to hits limit).
Proof. intros H. rewrite slice_to_take. by apply StronglySorted_prefix. Qed.

Lemma slice_to_Forall {A} (P : A -> Prop) l limit :
  Forall P l -> Forall P (slice_to l limit).
Proof. intros H. rewrite slice_to_take. by apply Forall_take. Qed.

Section Facts.

Variable lower : str -> str.

Lemma search_step_hits docs query results doc :
  doc ∈ docs ->
  Forall (app_hit lower docs query) results ->
  Forall (app_hit lower docs query) (search_step lower (lower query) results doc).
Proof.
  intros Hdoc Hres. unfold search_step.
  fold (matching_chunks lower query doc).
  destruct (matching_chunks lower query doc) as [|first rest] eqn:E; [done|].
  apply Forall_app. split; [done|]. repeat constructor.
  exists doc. simpl. rewrite E. unfold len. simpl.
  repeat split; try done; lia.
Qed.

Lemma foldl_search_step_hits docs query : forall some results,
  some ⊆ docs ->
  Forall (app_hit lower docs query) results ->
  Forall (app_hit lower docs query)
         (foldl (search_step lower (lower query)) results some).
Proof.
  induction some as [|doc some IH]; intros results Hsub Hres; [done|].
  simpl. apply IH.
  - intros d Hd. apply Hsub. by right.
  - apply search_step_hits; [|done]. apply Hsub. by left.
Qed.

Lemma foldl_fixed_search_step_hits docs query : forall some results,
  some ⊆ docs ->
  Forall (fixed_hit lower docs query) results ->
  Forall (fixed_hit lower docs query)
         (foldl (fixed_search_step lower (lower query)) results some).
Proof.
  induction some as [|doc some IH]; intros results Hsub Hres; [done|].
  simpl. apply IH.
  - intros d Hd. apply Hsub. by right.
  - unfold fixed_search_step.
    destruct (contains (lower query) (lower (fixed_content doc))) eqn:E;
      [|done].
    apply Forall_app. split; [done|]. repeat constructor.
    exists doc. simpl. repeat split; try done. apply Hsub. by left.
Qed.

End Facts.

End SearchFacts.

(** ** The embedding provider *)

Module NlpClaims.

Import Nlp.

(** C9, as the code has it: over a backend that encodes each text on its
    own, the batch operation returns, in order, the vectors of the
    single-text operation, one per text.  When the backend fails on the
    batch, every position holds the zero vector of length 384, whatever
    the single-text operation returns for that text; this is again the
    one-by-one result when the backend fails on every call. *)
Theorem generate_batch_embeddings_itemwise {scalar : Type} (zero : scalar)
    (cast : dtype -> scalar -> scalar)
    (encode : list str -> outcome (list (ndarray scalar)))
    (texts : list str) :
  (forall embed : str -> ndarray scalar,
     (forall ts, encode ts = Ok (map embed ts)) ->
     generate_batch_embeddings zero cast encode texts =
       map (generate_embeddings zero cast encode) texts /\
     length (generate_batch_embeddings zero cast encode texts) = length texts) /\
  (forall e, encode texts = Raise e ->
     generate_batch_embeddings zero cast encode texts =
       map (fun _ => zeros zero 384 float32) texts) /\
  ((forall ts, exists e, encode ts = Raise e) ->
     generate_batch_embeddings zero cast encode texts =
       map (generate_embeddings zero cast encode) texts).
Proof.
  repeat split.
  - unfold generate_batch_embeddings, generate_embeddings.
    rewrite H, map_map. apply map_ext. intros t. by rewrite H.
  - unfold generate_batch_embeddings. by rewrite H, !length_map.
  - intros e He. unfold generate_batch_embeddings. by rewrite He.
  - intros Hdown. unfold generate_batch_embeddings, generate_embeddings.
    destruct (Hdown texts) as [e ->]. apply map_ext. intros t.
    by destruct (Hdown [t]) as [e' ->].
Qed.

Lemma generate_batch_embeddings_itemwise_witness :
  generate_batch_embeddings 0 ExampleBackend.cast ExampleBackend.encode_each
    [lit "a"; lit "bc"] =
  map (generate_embeddings 0 ExampleBackend.cast ExampleBackend.encode_each)
    [lit "a"; lit "bc"] /\
  generate_batch_embeddings 0 ExampleBackend.cast ExampleBackend.encode_down
    [lit "a"; lit "bc"] =
  map (fun _ => zeros 0 384 float32) [lit "a"; lit "bc"].
Proof.
  split.
  - destruct (generate_batch_embeddings_itemwise 0 ExampleBackend.cast
                ExampleBackend.encode_each [lit "a"; lit "bc"])
      as (Heach & _ & _).
    apply (Heach ExampleBackend.embed). reflexivity.
  - destruct (generate_batch_embeddings_itemwise 0 ExampleBackend.cast
                ExampleBackend.encode_down [lit "a"; lit "bc"])
      as (_ & Hfail & _).
    apply (Hfail (RuntimeError "model backend unavailable")). reflexivity.
Defined.

(** C9 as stated fails: over a backend that fails on the batch of two
    texts and encodes each of them alone, the batch holds two zero
    vectors while the single-text vectors are not zero. *)
Lemma generate_batch_embeddings_counterexample :
  let batch := generate_batch_embeddings 0 ExampleBackend.cast
                 ExampleBackend.encode_small [lit "a"; lit "bc"] in
  let single := generate_embeddings 0 ExampleBackend.cast
                  ExampleBackend.encode_small in
  batch = [zeros 0 384 float32; zeros 0 384 float32] /\
  single (lit "a") = NdArray float32 (replicate 384 1) /\
  single (lit "bc") = NdArray float32 (replicate 384 2) /\
  batch <> map single [lit "a"; lit "bc"].
Proof.
  repeat split; try reflexivity. vm_compute. discriminate.
Qed.

(** C10: [generate_embeddings] returns for every text, and what it
    returns is a float32 array; when the backend raises, it is the array
    of 384 zeros; over a model whose rows have 384 elements, as
    all-MiniLM-L6-v2 has, its length is 384 in every case. *)
Theorem generate_embeddings_total {scalar : Type} (zero : scalar)
    (cast : dtype -> scalar -> scalar)
    (encode : list str -> outcome (list (ndarray scalar)))
    (text : str) :
  let v := generate_embeddings zero cast encode text in
  arr_dtype v = float32 /\
  (forall e, encode [text] = Raise e ->
     v = NdArray float32 (replicate 384 zero)) /\
  ((forall rows, encode [text] = Ok rows ->
      Forall (fun a => length (arr_data a) = 384%nat) rows) ->
   length (arr_data v) = 384%nat).
Proof.
  intros v. subst v. unfold generate_embeddings.
  destruct (encode [text]) as [[|a rows]|e] eqn:E; simpl.
  - repeat split; try done; intros; by rewrite length_replicate.
  - repeat split; try done. intros Hdim. rewrite length_map.
    specialize (Hdim _ eq_refl). by inversion Hdim.
  - repeat split; try done; intros; by rewrite length_replicate.
Qed.

Lemma generate_embeddings_total_witness :
  generate_embeddings 0 ExampleBackend.cast ExampleBackend.encode_down
    (lit "hello") = NdArray float32 (replicate 384 0) /\
  length (arr_data (generate_embeddings 0 ExampleBackend.cast
                      ExampleBackend.encode_each (lit "hello"))) = 384%nat.
Proof.
  split.
  - destruct (generate_embeddings_total 0 ExampleBackend.cast
                ExampleBackend.encode_down (lit "hello"))
      as (_ & Hfail & _).
    apply (Hfail (RuntimeError "model backend unavailable")). reflexivity.
  - destruct (generate_embeddings_total 0 ExampleBackend.cast
                ExampleBackend.encode_each (lit "hello"))
      as (_ & _ & Hdim).
    apply Hdim. intros rows [= <-]. repeat constructor.
Defined.

End NlpClaims.

(** ** More of the vector index *)

Module VectorDbMore.

Import VectorDb IndexTerms VectorDbFacts.

Section More.

Context {blob : Type}.
Variable vec_valid : blob -> bool.
Variable vec_distance : blob -> blob -> Q.

Lemma no_orphans_insert (t : tables blob) (row : document_row) (v : blob) :
  no_orphans t = true ->
  no_orphans
    {| documents := documents t ++ [row];
       documents_seq := id row;
       document_embeddings :=
         document_embeddings t ++ [ {| document_id := id row; embedding := v |} ];
       search_queries := search_queries t |} = true.
Proof.
  unfold no_orphans. simpl. intros H.
  apply andb_prop in H as [He Hd].
  apply andb_true_intro. split.
  - rewrite forallb_app. apply andb_true_intro. split.
    + rewrite forallb_forall in *. intros e Hin. rewrite existsb_app.
      by rewrite (He e Hin).
    + simpl. rewrite existsb_app. simpl. rewrite Z.eqb_refl.
      by rewrite orb_true_r.
  - rewrite forallb_app. apply andb_true_intro. split.
    + rewrite forallb_forall in *. intros d Hin. rewrite existsb_app.
      by rewrite (Hd d Hin).
    + simpl. rewrite existsb_app. simpl. rewrite Z.eqb_refl.
      by rewrite orb_true_r.
Qed.

(** The log of a search is never written: the [INSERT] is refused, and
    [_log_search_query] swallows the error. *)
Lemma log_search_query_refused faults q n (c : connection blob) :
  _log_search_query faults q n c = (c, Ok tt).
Proof.
  unfold _log_search_query, insert_search_query, commit, try_except, bind,
    storage, write, ret, throw.
  destruct (at_log_insert faults); done.
Qed.

(** The [SELECT] of a search raises on every call. *)
Lemma select_nearest_refused fault q thr limit (c : connection blob) :
  exists e, select_nearest vec_valid vec_distance fault q thr limit c = (c, Raise e).
Proof.
  unfold select_nearest, bind, storage, read, ret, throw.
  destruct fault; simpl; eauto.
Qed.

(** So a search returns the empty list and leaves the connection as it
    was. *)
Lemma semantic_search_refused faults q limit thr (c : connection blob) :
  semantic_search vec_valid vec_distance faults q limit thr c = (c, Ok []).
Proof.
  unfold semantic_search, try_except, bind.
  rewrite log_search_query_refused.
  by destruct (select_nearest_refused (at_select faults) q thr limit c) as [e ->].
Qed.

(** What an insert does when nothing fails. *)
Lemma add_document_runs filename content processed_data embedding metadata
    (c : connection blob) :
  vec_valid embedding = true ->
  existsb (fun e => document_id e =? documents_seq (working c) + 1)
          (document_embeddings (working c)) = false ->
  exists row,
    id row = documents_seq (working c) + 1 /\
    VectorDb.filename row = filename /\
    VectorDb.content row = content /\
    add_document_with_embeddings vec_valid (InsertFaults None None None)
      filename content processed_data embedding metadata c =
      (let t := {| documents := documents (working c) ++ [row];
                   documents_seq := id row;
                   document_embeddings :=
                     document_embeddings (working c) ++
                       [ {| document_id := id row; embedding := embedding |} ];
                   search_queries := search_queries (working c) |} in
       ({| committed := t; working := t |}, Ok (id row))).
Proof.
  intros Hv Hfresh.
  exists {| id := documents_seq (working c) + 1;
            VectorDb.filename := filename;
            VectorDb.content := content;
            cleaned_content :=
              get processed_data "cleaned_content" (JStr content);
            tokens := get processed_data "tokens" (JList []);
            entities := get processed_data "entities" (JList []);
            keywords := get processed_data "keywords" (JList []);
            word_count :=
              get processed_data "word_count" (JNum (len (split content)));
            VectorDb.metadata :=
              match metadata with
              | Some m => if truthy m then Some (JDict m) else None
              | None => None
              end |}.
  repeat split.
  unfold add_document_with_embeddings, insert_document, insert_embedding,
    commit, rollback, try_except, bind, storage, read, write, ret, throw.
  simpl. rewrite Hv. simpl. rewrite Hfresh. simpl. reflexivity.
Qed.

End More.

End VectorDbMore.

Module VectorDbExtras.

Import VectorDb IndexTerms VectorDbFacts VectorDbMore.

(** X1: an insert during which nothing fails (the vector is accepted and
    the next id has no embedding row yet) returns the next AUTOINCREMENT
    id, appends one document row and one embedding row under that id,
    commits them, and keeps an index without orphan rows without them. *)
Theorem add_document_with_embeddings_commits {blob : Type}
    (vec_valid : blob -> bool) (filename content : str)
    (processed_data : gmap string json) (embedding : blob)
    (metadata : option (list (string * json))) (c : connection blob) :
  vec_valid embedding = true ->
  existsb (fun e => document_id e =? documents_seq (working c) + 1)
          (document_embeddings (working c)) = false ->
  let run := add_document_with_embeddings vec_valid (InsertFaults None None None)
               filename content processed_data embedding metadata c in
  let new_id := documents_seq (working c) + 1 in
  run.2 = Ok new_id /\
  committed run.1 = working run.1 /\
  (exists row,
     documents (working run.1) = documents (working c) ++ [row] /\
     id row = new_id /\
     VectorDb.filename row = filename /\
     VectorDb.content row = content) /\
  document_embeddings (working run.1) =
    document_embeddings (working c) ++
      [ {| document_id := new_id; embedding := embedding |} ] /\
  documents_seq (working run.1) = new_id /\
  (no_orphans (working c) = true -> no_orphans (working run.1) = true).
Proof.
  intros Hv Hfresh run new_id. subst run new_id.
  destruct (add_document_runs vec_valid filename content processed_data
              embedding metadata c Hv Hfresh) as (row & Hid & Hf & Hc & ->).
  simpl. rewrite Hid. repeat split; try done.
  - by exists row.
  - intros Ho. rewrite <- Hid. by apply no_orphans_insert.
Qed.

Lemma add_document_with_embeddings_commits_witness :
  let run := add_document_with_embeddings ExampleIndex.vec_valid
               (InsertFaults None None None) (lit "e.txt") (lit "some text")
               ∅ (ExampleIndex.vec 1) None ExampleIndex.four_index in
  run.2 = Ok 5 /\
  committed run.1 = working run.1 /\
  no_orphans (working run.1) = true.
Proof.
  intros run.
  destruct (add_document_with_embeddings_commits ExampleIndex.vec_valid
              (lit "e.txt") (lit "some text") ∅ (ExampleIndex.vec 1) None
              ExampleIndex.four_index)
    as (Hid & Hcommit & _ & _ & _ & Ho); [reflexivity|reflexivity|].
  split; [exact Hid|]. split; [exact Hcommit|]. apply Ho. reflexivity.
Defined.

(** X2: an embedding that the [vec0] table refuses (wrong dimension) makes
    the insert raise an sqlite error although the document row was already
    written, and the rollback of the handler removes that row again: the
    tables are the committed ones from before the call. *)
Theorem add_document_with_embeddings_refused_vector {blob : Type}
    (vec_valid : blob -> bool) (faults : insert_faults)
    (filename content : str) (processed_data : gmap string json)
    (embedding : blob) (metadata : option (list (string * json)))
    (c : connection blob) :
  at_insert_document faults = None ->
  at_insert_embedding faults = None ->
  vec_valid embedding = false ->
  let run := add_document_with_embeddings vec_valid faults filename content
               processed_data embedding metadata c in
  (exists msg, run.2 = Raise (SqliteError msg)) /\
  committed run.1 = committed c /\
  working run.1 = committed c.
Proof.
  intros Hd He Hv run. subst run.
  unfold add_document_with_embeddings, insert_document, insert_embedding,
    commit, rollback, try_except, bind, storage, read, write, ret, throw.
  rewrite Hd, He. simpl. rewrite Hv. simpl. eauto.
Qed.

Lemma add_document_with_embeddings_refused_vector_witness :
  let run := add_document_with_embeddings ExampleIndex.vec_valid
               (InsertFaults None None None) (lit "e.txt") (lit "some text")
               ∅ [1%Q; 2%Q] None ExampleIndex.four_index in
  (exists msg, run.2 = Raise (SqliteError msg)) /\
  committed run.1 = ExampleIndex.four_tables /\
  working run.1 = ExampleIndex.four_tables.
Proof.
  apply (add_document_with_embeddings_refused_vector ExampleIndex.vec_valid
           (InsertFaults None None None) (lit "e.txt") (lit "some text")
           ∅ [1%Q; 2%Q] None ExampleIndex.four_index); reflexivity.
Defined.

(** X3: insert, then look up.  A document that an insert has stored and
    committed, with its vector, is not found by a search with that very
    vector, under any cap and threshold: the [SELECT] of
    [semantic_search] joins the [vec0] table to [documents] and has no
    [k = ?] term, so the table refuses the [MATCH], and the handler turns
    the error into the empty list.  A search returns the empty list on
    every call, whatever the index holds. *)
Theorem insert_then_search_finds_nothing {blob : Type}
    (vec_valid : blob -> bool) (vec_distance : blob -> blob -> Q)
    (filename content : str) (processed_data : gmap string json)
    (embedding : blob) (metadata : option (list (string * json)))
    (faults : search_faults) (limit : Z) (distance_threshold : Q)
    (c : connection blob) :
  vec_valid embedding = true ->
  existsb (fun e => document_id e =? documents_seq (working c) + 1)
          (document_embeddings (working c)) = false ->
  let added := add_document_with_embeddings vec_valid
                 (InsertFaults None None None) filename content
                 processed_data embedding metadata c in
  let found := semantic_search vec_valid vec_distance faults embedding limit
                 distance_threshold added.1 in
  let new_id := documents_seq (working c) + 1 in
  added.2 = Ok new_id /\
  (exists row,
     row ∈ documents (committed added.1) /\
     id row = new_id /\
     VectorDb.filename row = filename /\
     VectorDb.content row = content) /\
  {| document_id := new_id; embedding := embedding |} ∈
    document_embeddings (committed added.1) /\
  found.2 = Ok [] /\
  (forall (any_faults : search_faults) (query_embedding : blob) (any_limit : Z)
          (any_threshold : Q) (index : connection blob),
     (semantic_search vec_valid vec_distance any_faults query_embedding
        any_limit any_threshold index).2 = Ok []).
Proof.
  intros Hv Hfresh added found new_id. subst added found new_id.
  destruct (add_document_runs vec_valid filename content processed_data
              embedding metadata c Hv Hfresh) as (row & Hid & Hf & Hc & ->).
  simpl. rewrite Hid. split; [done|]. split; [|split; [|split]].
  - exists row. split; [|done]. apply elem_of_app. right. by left.
  - apply elem_of_app. right. by left.
  - by rewrite semantic_search_refused.
  - intros. by rewrite semantic_search_refused.
Qed.

Lemma insert_then_search_finds_nothing_witness :
  let added := add_document_with_embeddings ExampleIndex.vec_valid
                 (InsertFaults None None None) (lit "e.txt") (lit "some text")
                 ∅ (ExampleIndex.vec 1) None ExampleIndex.empty_index in
  added.2 = Ok 1 /\
  (semantic_search ExampleIndex.vec_valid ExampleIndex.vec_distance
     ExampleIndex.no_search_faults (ExampleIndex.vec 1) 5 (3 # 2)
     added.1).2 = Ok [].
Proof.
  intros added.
  destruct (insert_then_search_finds_nothing ExampleIndex.vec_valid
              ExampleIndex.vec_distance (lit "e.txt") (lit "some text") ∅
              (ExampleIndex.vec 1) None ExampleIndex.no_search_faults 5 (3 # 2)
              ExampleIndex.empty_index)
    as (Hadded & _ & _ & Hfound & _); [reflexivity|reflexivity|].
  split; [exact Hadded|exact Hfound].
Defined.


End VectorDbExtras.

(** ** Substrings, counts and slices *)

Section Substrings.

Lemma startswith_app (sub rest : str) : startswith sub (sub ++ rest) = true.
Proof.
  induction sub as [|a sub IH]; [done|]. simpl. by rewrite N.eqb_refl, IH.
Qed.

Lemma contains_startswith (sub s : str) :
  startswith sub s = true -> contains sub s = true.
Proof. intros H. destruct s; simpl in *; by rewrite H. Qed.

Lemma contains_cons (sub : str) (c : char) (s : str) :
  contains sub s = true -> contains sub (c :: s) = true.
Proof. intros H. simpl. rewrite H. by rewrite orb_true_r. Qed.

Lemma contains_app_r (sub pre s : str) :
  contains sub s = true -> contains sub (pre ++ s) = true.
Proof.
  intros H. induction pre as [|c pre IH]; [done|]. by apply contains_cons.
Qed.

Lemma contains_app_l (sub post : str) :
  contains sub (sub ++ post) = true.
Proof. apply contains_startswith, startswith_app. Qed.

Lemma contains_nil (s : str) : contains [] s = true.
Proof. by destruct s. Qed.

(** A word of a joined list is a substring of the joined text. *)
Lemma contains_join (sep w : str) (ws : list str) :
  w ∈ ws -> contains w (join sep ws) = true.
Proof.
  induction ws as [|w' ws IH]; intros Hin; [by apply elem_of_nil in Hin|].
  apply elem_of_cons in Hin as [->|Hin].
  - destruct ws as [|w'' ws]; simpl.
    + pose proof (contains_app_l w' []) as H. by rewrite app_nil_r in H.
    + apply contains_app_l.
  - destruct ws as [|w'' ws]; [by apply elem_of_nil in Hin|].
    change (join sep (w' :: w'' :: ws))
      with (w' ++ sep ++ join sep (w'' :: ws)).
    apply contains_app_r, contains_app_r. by apply IH.
Qed.

Lemma count_from_nonneg (sub : str) (s : str) : forall skip,
  0 <= count_from sub skip s.
Proof.
  induction s as [|c s IH]; intros skip; simpl; [lia|].
  destruct skip; [|apply IH].
  destruct (startswith sub (c :: s)).
  - pose proof (IH (Nat.pred (length sub))). lia.
  - apply IH.
Qed.

Lemma count_from_cons (sub : str) (c : char) (s : str) :
  count_from sub 0 (c :: s) =
    if startswith sub (c :: s)
    then 1 + count_from sub (Nat.pred (length sub)) s
    else count_from sub 0 s.
Proof. done. Qed.

Lemma contains_cons_eq (sub : str) (c : char) (s : str) :
  contains sub (c :: s) = startswith sub (c :: s) || contains sub s.
Proof. done. Qed.

Lemma count_from_contains (sub s : str) :
  sub <> [] -> contains sub s = true -> 1 <= count_from sub 0 s.
Proof.
  intros Hsub. induction s as [|c s IH]; intros H.
  - by destruct sub.
  - rewrite contains_cons_eq in H. rewrite count_from_cons.
    destruct (startswith sub (c :: s)).
    + pose proof (count_from_nonneg sub s (Nat.pred (length sub))). lia.
    + by apply IH.
Qed.

(** A substring that occurs is counted at least once. *)
Lemma count_contains (s sub : str) :
  contains sub s = true -> 1 <= count s sub.
Proof.
  intros H. unfold count. destruct sub as [|a sub]; [unfold len; lia|].
  by apply count_from_contains.
Qed.

Lemma find_from_lower_bound (sub s : str) : forall i,
  -1 <= i -> -1 <= find_from sub i s.
Proof.
  induction s as [|c s IH]; intros i Hi; simpl.
  - destruct (startswith sub []); lia.
  - destruct (startswith sub (c :: s)); [lia|]. apply IH. lia.
Qed.

End Substrings.

Section SliceLengths.

Context {A : Type}.

Lemma slice_to_length (l : list A) (b : Z) :
  len (slice_to l b) =
    if b <? 0 then Z.max 0 (len l + b) else Z.min b (len l).
Proof.
  rewrite slice_to_take. unfold len, slice_index. rewrite length_take.
  destruct (Z.ltb_spec b 0); lia.
Qed.

Lemma slice_to_all (l : list A) (b : Z) : len l <= b -> slice_to l b = l.
Proof.
  intros H. rewrite slice_to_take. apply take_ge.
  unfold slice_index, len in *. destruct (Z.ltb_spec b 0); lia.
Qed.

Lemma slice_length (l : list A) (a b : Z) :
  0 <= a -> 0 <= b -> len (slice l a b) <= Z.max 0 (b - a).
Proof.
  intros Ha Hb. rewrite slice_nonneg by done. unfold len.
  rewrite length_take. lia.
Qed.

End SliceLengths.

Lemma foldl_Forall {A B : Type} (f : list B -> A -> list B) (P : B -> Prop) :
  (forall acc x, Forall P acc -> Forall P (f acc x)) ->
  forall l acc, Forall P acc -> Forall P (foldl f acc l).
Proof.
  intros Hf. induction l as [|x l IH]; intros acc Hacc; [done|].
  simpl. apply IH. by apply Hf.
Qed.

(** ** More of the chunker *)

Section WindowFacts.

Variable words : list str.
Variables chunk_size step : Z.
Hypothesis size_pos : 0 < chunk_size.
Hypothesis step_pos : 0 < step.
Hypothesis step_le : step <= chunk_size.

(** Every word lies in the window that starts at or before it. *)
Lemma word_in_window (i : nat) (w : str) :
  words !! i = Some w ->
  exists k : nat,
    (k < Z.to_nat (range_length 0 (len words) step))%nat /\
    w ∈ window words chunk_size step k.
Proof.
  intros Hi. pose proof (lookup_lt_Some _ _ _ Hi) as Hlt.
  set (q := Z.of_nat i / step).
  assert (0 <= q) as Hq by (apply Z.div_pos; lia).
  pose proof (Z.mul_div_le (Z.of_nat i) step step_pos) as Hlo.
  pose proof (Z.mod_pos_bound (Z.of_nat i) step step_pos) as Hmod.
  pose proof (Z.div_mod (Z.of_nat i) step ltac:(lia)) as Hdm.
  fold q in Hlo, Hdm.
  exists (Z.to_nat q). split.
  - rewrite range_length_nonneg by done. unfold len.
    destruct (Z.ltb_spec 0 (Z.of_nat (length words))); [|lia].
    assert (q <= (Z.of_nat (length words) - 1) / step).
    { apply Z.div_le_mono; lia. }
    lia.
  - rewrite window_nat by done.
    apply list_elem_of_lookup.
    exists (i - Z.to_nat q * Z.to_nat step)%nat.
    rewrite lookup_take_lt by nia. rewrite lookup_drop.
    replace (Z.to_nat q * Z.to_nat step + (i - Z.to_nat q * Z.to_nat step))%nat
      with i by nia.
    done.
Qed.

(** The words of a window from position [step] on are the first
    [chunk_size - step] words of the next window. *)
Lemma window_overlap (k : nat) :
  drop (Z.to_nat step) (window words chunk_size step k) =
    take (Z.to_nat (chunk_size - step)) (window words chunk_size step (S k)).
Proof.
  rewrite !window_nat by done.
  rewrite skipn_firstn_comm, drop_drop, take_take.
  f_equal; [lia|]. f_equal. lia.
Qed.

End WindowFacts.

(** X7: consecutive chunks overlap as configured.  With
    [0 <= overlap < chunk_size], the words of a chunk from position
    [chunk_size - overlap] on are the first [overlap] words of the chunk
    that follows it, and there are [min(overlap, words left)] of them. *)
Theorem chunk_document_overlap (content : str) (chunk_size overlap : Z)
    (chunks : list str) (k : nat) (a b : str) :
  0 <= overlap < chunk_size ->
  chunk_document content chunk_size overlap = Ok chunks ->
  chunks !! k = Some a ->
  chunks !! S k = Some b ->
  drop (Z.to_nat (chunk_size - overlap)) (split a) =
    take (Z.to_nat overlap) (split b) /\
  len (take (Z.to_nat overlap) (split b)) =
    Z.min overlap
      (len (split content) - Z.of_nat (S k) * (chunk_size - overlap)).
Proof.
  intros Hv Hrun Ha Hb.
  rewrite chunk_document_windows in Hrun by done.
  injection Hrun as <-.
  pose proof (split_words content) as Hw.
  set (words := split content) in *. set (step := chunk_size - overlap) in *.
  assert (0 < step) as Hs by (unfold step; lia).
  assert (0 < chunk_size) as Hc by lia.
  change (map ?f ?l) with (f <$> l) in Ha, Hb.
  apply list_lookup_fmap_Some in Ha as (j & -> & Hj).
  apply list_lookup_fmap_Some in Hb as (j' & -> & Hj').
  apply lookup_seq in Hj as [Hjk Hj]. simpl in Hjk. subst j.
  apply lookup_seq in Hj' as [Hjk Hj']. simpl in Hjk. subst j'.
  rewrite !split_window by done.
  replace overlap with (chunk_size - step) by (unfold step; lia).
  split.
  - apply window_overlap; unfold step; lia.
  - pose proof (window_length words chunk_size step Hc Hs (S k)) as Hl.
    pose proof (range_length_bound (len words) step (S k) Hs Hj') as Hb.
    unfold len in *. rewrite length_take. lia.
Qed.

Lemma chunk_document_overlap_witness :
  drop 3 (split (lit "The quick brown fox")) =
    take 1 (split (lit "fox jumps. The lazy")).
Proof.
  apply (chunk_document_overlap fox_text 4 1
           [lit "The quick brown fox"; lit "fox jumps. The lazy";
            lit "lazy dog sleeps."] 0
           (lit "The quick brown fox") (lit "fox jumps. The lazy"));
    [lia|reflexivity|reflexivity|reflexivity].
Defined.

(** X8: the shape of a chunk.  With [0 <= overlap < chunk_size], every
    chunk is a non-empty text without whitespace at either end whose words
    are separated by single spaces (joining its words gives the chunk
    back), and every word of the input occurs in at least one chunk. *)
Theorem chunk_document_chunk_shape (content : str) (chunk_size overlap : Z)
    (chunks : list str) :
  0 <= overlap < chunk_size ->
  chunk_document content chunk_size overlap = Ok chunks ->
  Forall (fun chunk => chunk <> [] /\
                       strip chunk = chunk /\
                       join (lit " ") (split chunk) = chunk) chunks /\
  (forall w, w ∈ split content ->
             exists chunk, chunk ∈ chunks /\ w ∈ split chunk).
Proof.
  intros Hv Hrun.
  rewrite chunk_document_windows in Hrun by done.
  injection Hrun as <-.
  pose proof (split_words content) as Hw.
  set (words := split content) in *. set (step := chunk_size - overlap) in *.
  assert (0 < step) as Hs by (unfold step; lia).
  assert (0 < chunk_size) as Hc by lia.
  split.
  - apply Forall_map, Forall_forall. intros k Hk. apply elem_of_seq in Hk.
    pose proof (window_words words chunk_size step Hw Hc Hs k) as Hwk.
    pose proof (window_length words chunk_size step Hc Hs k) as Hlen.
    pose proof (range_length_bound (len words) step k Hs ltac:(lia)) as Hb.
    rewrite split_join, strip_join by done.
    split; [|done].
    destruct (window words chunk_size step k) as [|w ws] eqn:E.
    + unfold len in *. simpl in Hlen. lia.
    + inversion Hwk; subst. pose proof (join_truthy (lit " ") w ws) as Ht.
      destruct (join (lit " ") (w :: ws)); [|done].
      by discriminate Ht.
  - intros w Hin. apply list_elem_of_lookup in Hin as [i Hi].
    destruct (word_in_window words chunk_size step Hc Hs
                ltac:(unfold step; lia) i w Hi) as (k & Hk & Hwk).
    exists (join (lit " ") (window words chunk_size step k)). split.
    + apply (list_elem_of_fmap_2
               (fun k => join (lit " ") (window words chunk_size step k))
               (seq 0 (Z.to_nat (range_length 0 (len words) step))) k).
      apply elem_of_seq. lia.
    + by rewrite split_window.
Qed.

Lemma chunk_document_chunk_shape_witness :
  Forall (fun chunk => chunk <> [] /\
                       strip chunk = chunk /\
                       join (lit " ") (split chunk) = chunk)
         [lit "The quick brown fox"; lit "fox jumps. The lazy";
          lit "lazy dog sleeps."].
Proof.
  apply (chunk_document_chunk_shape fox_text 4 1
           [lit "The quick brown fox"; lit "fox jumps. The lazy";
            lit "lazy dog sleeps."]); [lia|reflexivity].
Defined.

(** ** More of the keyword search *)

Module SearchMore.

Import KeywordSearch SearchTerms SearchFacts MatchTerms.

Lemma stable_sort_length {A} (before : A -> A -> bool) (l : list A) :
  length (stable_sort before l) = length l.
Proof. apply Permutation_length, stable_sort_Permutation. Qed.

Lemma slice_to_kept {A} (l : list A) (limit : Z) :
  len (slice_to l limit) = kept limit (len l).
Proof. apply slice_to_length. Qed.

(** On ASCII text [str.lower] works character by character, which keeps
    prefixes prefixes and substrings substrings. *)
Lemma ascii_lower_startswith (a b : str) :
  startswith a b = true -> startswith (ascii_lower a) (ascii_lower b) = true.
Proof.
  revert b. induction a as [|x a IH]; intros b H; [done|].
  destruct b as [|c b]; [done|]. simpl in H.
  apply andb_prop in H as [Hx H]. apply N.eqb_eq in Hx. subst x.
  simpl. rewrite N.eqb_refl. simpl. by apply IH.
Qed.

Lemma ascii_lower_contains (a b : str) :
  contains a b = true -> contains (ascii_lower a) (ascii_lower b) = true.
Proof.
  induction b as [|c b IH]; intros H.
  - destruct a; [done|]. simpl in H. done.
  - rewrite contains_cons_eq in H. apply orb_prop in H as [H|H].
    + apply contains_startswith.
      by apply (ascii_lower_startswith a (c :: b)).
    + apply (contains_cons (ascii_lower a)). by apply IH.
Qed.

Section More.

Variable lower : str -> str.

Lemma search_step_length query results doc :
  length (search_step lower (lower query) results doc) =
    (length results +
     length (matching_documents lower query [doc]))%nat.
Proof.
  unfold search_step, matching_documents. simpl.
  fold (matching_chunks lower query doc).
  destruct (matching_chunks lower query doc); simpl.
  - lia.
  - rewrite length_app. simpl. lia.
Qed.

Lemma foldl_search_step_length query : forall docs results,
  length (foldl (search_step lower (lower query)) results docs) =
    (length results + length (matching_documents lower query docs))%nat.
Proof.
  induction docs as [|doc docs IH]; intros results; simpl; [lia|].
  rewrite IH, search_step_length. unfold matching_documents. simpl.
  destruct (truthy (matching_chunks lower query doc)); simpl; lia.
Qed.

Lemma foldl_fixed_search_step_length query : forall docs results,
  length (foldl (fixed_search_step lower (lower query)) results docs) =
    (length results + length (fixed_matching_documents lower query docs))%nat.
Proof.
  induction docs as [|doc docs IH]; intros results; simpl; [lia|].
  rewrite IH. unfold fixed_search_step, fixed_matching_documents. simpl.
  destruct (contains (lower query) (lower (fixed_content doc))); simpl;
    [rewrite length_app; simpl|]; lia.
Qed.

Lemma foldl_search_step_filenames query : forall docs results,
  map hit_filename (foldl (search_step lower (lower query)) results docs) =
    map hit_filename results ++
    map filename (matching_documents lower query docs).
Proof.
  induction docs as [|doc docs IH]; intros results; simpl.
  - by rewrite app_nil_r.
  - rewrite IH. unfold search_step, matching_documents. simpl.
    fold (matching_chunks lower query doc).
    destruct (matching_chunks lower query doc); simpl; [done|].
    rewrite map_app. simpl. by rewrite <- app_assoc.
Qed.

Lemma foldl_fixed_search_step_filenames query : forall docs results,
  map hit_filename
      (foldl (fixed_search_step lower (lower query)) results docs) =
    map hit_filename results ++
    map fixed_filename (fixed_matching_documents lower query docs).
Proof.
  induction docs as [|doc docs IH]; intros results; simpl.
  - by rewrite app_nil_r.
  - rewrite IH. unfold fixed_search_step, fixed_matching_documents. simpl.
    destruct (contains (lower query) (lower (fixed_content doc))); simpl;
      [|done].
    rewrite map_app. simpl. by rewrite <- app_assoc.
Qed.

(** The loop over the documents produces one hit per matching document,
    in the order of the documents. *)
Lemma search_step_hit_of query results doc :
  (truthy (matching_chunks lower query doc) = false /\
   search_step lower (lower query) results doc = results) \/
  (truthy (matching_chunks lower query doc) = true /\
   exists h,
     search_step lower (lower query) results doc = results ++ [h] /\
     app_hit_of lower query h doc).
Proof.
  unfold search_step. fold (matching_chunks lower query doc).
  destruct (matching_chunks lower query doc) as [|first rest] eqn:E.
  - by left.
  - right. split; [done|]. eexists. split; [reflexivity|].
    unfold app_hit_of. simpl. by rewrite E.
Qed.

Lemma foldl_search_step_hit_of query : forall docs results seen,
  Forall2 (app_hit_of lower query) results seen ->
  Forall2 (app_hit_of lower query)
          (foldl (search_step lower (lower query)) results docs)
          (seen ++ matching_documents lower query docs).
Proof.
  induction docs as [|doc docs IH]; intros results seen H.
  - simpl. by rewrite app_nil_r.
  - change (foldl (search_step lower (lower query)) results (doc :: docs))
      with (foldl (search_step lower (lower query))
              (search_step lower (lower query) results doc) docs).
    change (matching_documents lower query (doc :: docs))
      with (if truthy (matching_chunks lower query doc)
            then doc :: matching_documents lower query docs
            else matching_documents lower query docs).
    destruct (search_step_hit_of query results doc)
      as [[-> ->] | [-> (h & -> & Hh)]].
    + by apply IH.
    + rewrite (cons_middle doc seen), app_assoc. apply IH.
      apply Forall2_app; [done|]. constructor; [exact Hh|constructor].
Qed.

Lemma foldl_fixed_search_step_hit_of query : forall docs results seen,
  Forall2 (fixed_hit_of lower query) results seen ->
  Forall2 (fixed_hit_of lower query)
          (foldl (fixed_search_step lower (lower query)) results docs)
          (seen ++ fixed_matching_documents lower query docs).
Proof.
  induction docs as [|doc docs IH]; intros results seen H; simpl.
  - by rewrite app_nil_r.
  - unfold fixed_search_step at 2. unfold fixed_matching_documents. simpl.
    destruct (contains (lower query) (lower (fixed_content doc))) eqn:E.
    + rewrite (cons_middle doc seen), app_assoc. apply IH.
      apply Forall2_app; [done|]. constructor; [done|constructor].
    + by apply IH.
Qed.

(** The hits of a search before the cut to [limit]. *)
Lemma search_documents_results {embedder} (st : model_state embedder)
    query limit :
  search_documents lower st query limit !! "results" =
    Some (VHits (slice_to
                   (stable_sort by_relevance
                      (foldl (search_step lower (lower query)) []
                             (documents st))) limit)).
Proof.
  unfold search_documents. destruct (documents st) as [|doc docs]; [|done].
  simpl. by rewrite slice_to_take, take_nil.
Qed.

Lemma fixed_search_documents_results {embedder}
    (st : fixed_model_state embedder) query limit :
  fixed_search_documents lower st query limit !! "results" =
    Some (VHits (slice_to
                   (stable_sort by_relevance
                      (foldl (fixed_search_step lower (lower query)) []
                             (fixed_documents st))) limit)).
Proof.
  unfold fixed_search_documents.
  destruct (fixed_documents st) as [|doc docs]; [|done].
  simpl. by rewrite slice_to_take, take_nil.
Qed.

End More.

End SearchMore.

Module SearchClaims.

Import KeywordSearch SearchTerms SearchFacts MatchTerms SearchMore
  ExampleSearch.

(** C8, as the code has it: [search_documents] has no embedding step and
    does not read the embedding model, so nothing distinguishes a search
    under a failed embedding backend, and the response has no [degraded]
    key.  Every search is a case-insensitive substring match (over the
    chunks of each document in [src/backend/app.py], over the whole
    content in [fixed_backend.py]).  Its loop produces one hit per
    matching document, in the order of the documents, with the file name
    of the document, its number of matches and the capped relevance score
    [min(85 + 10 * matches, 100)], resp. [min(90, 60 + 10 * matches)];
    the hits are then put in descending order of that score, and the
    response holds the cut [results[:limit]] of this ranking. *)
Theorem search_documents_keyword_only (lower : str -> str)
    {embedder : Type} (st : model_state embedder)
    (fixed_st : fixed_model_state embedder) (query : str) (limit : Z) :
  let response := search_documents lower st query limit in
  let fixed_response := fixed_search_documents lower fixed_st query limit in
  (response =
     search_documents lower
       (ModelState (@None embedder) false (documents st)) query limit /\
   response !! "degraded" = None /\
   exists ranking produced,
     response !! "results" = Some (VHits (slice_to ranking limit)) /\
     ranked ranking /\
     ranking ≡ₚ produced /\
     Forall2 (app_hit_of lower query) produced
             (matching_documents lower query (documents st))) /\
  (fixed_response =
     fixed_search_documents lower
       (FixedModelState (@None embedder) false (fixed_documents fixed_st))
       query limit /\
   fixed_response !! "degraded" = None /\
   exists ranking produced,
     fixed_response !! "results" = Some (VHits (slice_to ranking limit)) /\
     ranked ranking /\
     ranking ≡ₚ produced /\
     Forall2 (fixed_hit_of lower query) produced
             (fixed_matching_documents lower query (fixed_documents fixed_st))).
Proof.
  intros response fixed_response. split.
  - subst response. split; [done|]. split.
    + unfold search_documents. by destruct (documents st).
    + exists (stable_sort by_relevance
                (foldl (search_step lower (lower query)) [] (documents st))),
             (foldl (search_step lower (lower query)) [] (documents st)).
      split; [apply search_documents_results|].
      split; [apply stable_sort_ranked|].
      split; [apply stable_sort_Permutation|].
      apply (foldl_search_step_hit_of lower query (documents st) [] []).
      constructor.
  - subst fixed_response. split; [done|]. split.
    + unfold fixed_search_documents. by destruct (fixed_documents fixed_st).
    + exists (stable_sort by_relevance
                (foldl (fixed_search_step lower (lower query)) []
                       (fixed_documents fixed_st))),
             (foldl (fixed_search_step lower (lower query)) []
                    (fixed_documents fixed_st)).
      split; [apply fixed_search_documents_results|].
      split; [apply stable_sort_ranked|].
      split; [apply stable_sort_Permutation|].
      apply (foldl_fixed_search_step_hit_of lower query
               (fixed_documents fixed_st) [] []).
      constructor.
Qed.

(** C8 as stated fails: with no embedding model the response of a search
    has no [degraded] flag, and the document with two matches is ranked
    before the one with five. *)
Lemma search_documents_degraded_counterexample :
  let response :=
    search_documents ascii_lower without_embeddings (lit "X") 5 in
  response !! "degraded" = None /\
  response !! "degraded" <> Some (VBool true) /\
  response !! "results" =
    Some (VHits [ {| hit_filename := lit "two.txt";
                     content_preview := lit "x...";
                     relevance_score := 100; matches := 2 |};
                  {| hit_filename := lit "five.txt";
                     content_preview := lit "x...";
                     relevance_score := 100; matches := 5 |} ]).
Proof.
  repeat split; done.
Qed.

End SearchClaims.

Module SearchExtras.

Import KeywordSearch SearchTerms SearchFacts MatchTerms SearchMore.

(** X9: how many hits a search returns.  There is one hit for every
    document that matches the query (a chunk contains it in
    [src/backend/app.py], the content contains it in [fixed_backend.py]),
    cut by [results[:limit]]: of [m] matching documents a cap
    [limit >= 0] keeps [min(limit, m)], and a negative [limit] drops the
    last [-limit] hits and keeps [max(0, m + limit)]. *)
Theorem search_documents_hit_count (lower : str -> str) {embedder : Type}
    (st : model_state embedder) (fixed_st : fixed_model_state embedder)
    (query : str) (limit : Z) :
  (exists hits,
     search_documents lower st query limit !! "results" = Some (VHits hits) /\
     len hits =
       kept limit (len (matching_documents lower query (documents st)))) /\
  (exists hits,
     fixed_search_documents lower fixed_st query limit !! "results" =
       Some (VHits hits) /\
     len hits =
       kept limit
         (len (fixed_matching_documents lower query (fixed_documents fixed_st)))).
Proof.
  split.
  - eexists. split; [apply search_documents_results|].
    rewrite slice_to_kept. f_equal. unfold len.
    by rewrite stable_sort_length, foldl_search_step_length.
  - eexists. split; [apply fixed_search_documents_results|].
    rewrite slice_to_kept. f_equal. unfold len.
    by rewrite stable_sort_length, foldl_fixed_search_step_length.
Qed.

(** X10: the relevance scores a search can report.  In
    [src/backend/app.py] a hit scores 95 when one chunk of its document
    matches and 100 when more do; in [fixed_backend.py] a hit has at least
    one occurrence and scores 70, 80 or 90 for one, two or more
    occurrences.  So the ranking has two, resp. three, levels. *)
Theorem search_documents_relevance_levels (lower : str -> str)
    {embedder : Type} (st : model_state embedder)
    (fixed_st : fixed_model_state embedder) (query : str) (limit : Z) :
  (exists hits,
     search_documents lower st query limit !! "results" = Some (VHits hits) /\
     Forall (fun h => matches h = 1 /\ relevance_score h = 95 \/
                      2 <= matches h /\ relevance_score h = 100) hits) /\
  (exists hits,
     fixed_search_documents lower fixed_st query limit !! "results" =
       Some (VHits hits) /\
     Forall (fun h => 1 <= matches h /\
                      relevance_score h = 60 + 10 * Z.min (matches h) 3) hits).
Proof.
  split.
  - eexists. split; [apply search_documents_results|].
    apply slice_to_Forall, stable_sort_Forall.
    eapply Forall_impl.
    + by apply (foldl_search_step_hits lower (documents st) query
                  (documents st) []).
    + intros h (doc & _ & _ & _ & Hm & Hr). lia.
  - eexists. split; [apply fixed_search_documents_results|].
    apply slice_to_Forall, stable_sort_Forall.
    eapply Forall_impl.
    + by apply (foldl_fixed_search_step_hits lower (fixed_documents fixed_st)
                  query (fixed_documents fixed_st) []).
    + intros h (doc & _ & _ & Hc & Hm & Hr).
      apply count_contains in Hc. lia.
Qed.

(** X15: previews are bounded.  The [content_preview] of a hit has at
    most 203 characters in [src/backend/app.py] (200 of the first matching
    chunk and the dots) and at most 250 in [fixed_backend.py] (from 50
    before the first occurrence to 200 after its start). *)
Theorem search_documents_preview_bounds (lower : str -> str)
    {embedder : Type} (st : model_state embedder)
    (fixed_st : fixed_model_state embedder) (query : str) (limit : Z) :
  (exists hits,
     search_documents lower st query limit !! "results" = Some (VHits hits) /\
     Forall (fun h => len (content_preview h) <= 203) hits) /\
  (exists hits,
     fixed_search_documents lower fixed_st query limit !! "results" =
       Some (VHits hits) /\
     Forall (fun h => len (content_preview h) <= 250) hits).
Proof.
  split.
  - eexists. split; [apply search_documents_results|].
    apply slice_to_Forall, stable_sort_Forall.
    apply foldl_Forall; [|constructor].
    intros acc doc Hacc. unfold search_step.
    destruct (filter _ (chunks doc)) as [|first rest]; [done|].
    apply Forall_app. split; [done|]. repeat constructor. simpl.
    destruct (truthy first); [|unfold len; simpl; lia].
    pose proof (slice_to_length first 200) as Hl. simpl in Hl.
    unfold len in *. rewrite length_app. simpl. lia.
  - eexists. split; [apply fixed_search_documents_results|].
    apply slice_to_Forall, stable_sort_Forall.
    apply foldl_Forall; [|constructor].
    intros acc doc Hacc. unfold fixed_search_step.
    destruct (contains (lower query) (lower (fixed_content doc))); [|done].
    apply Forall_app. split; [done|]. repeat constructor. simpl.
    pose proof (find_from_lower_bound (lower query) (lower (fixed_content doc))
                  0 ltac:(lia)) as Hfind.
    fold (find (lower (fixed_content doc)) (lower query)) in Hfind.
    set (start := find (lower (fixed_content doc)) (lower query)) in *.
    pose proof (slice_length (fixed_content doc) (Z.max 0 (start - 50))
                  (Z.min (len (fixed_content doc)) (start + 200))) as Hl.
    unfold len in *. lia.
Qed.

(** The hits of one relevance score, in the order they have in a list. *)
Lemma insert_sorted_level (score : Z) (h : hit) (hits : list hit) :
  List.filter (fun x => relevance_score x =? score)
              (insert_sorted by_relevance h hits) =
  List.filter (fun x => relevance_score x =? score) (h :: hits).
Proof.
  induction hits as [|y hits IH]; [done|]. simpl insert_sorted.
  unfold by_relevance at 1. destruct (Z.leb_spec (relevance_score y) (relevance_score h)).
  - done.
  - simpl. simpl in IH. rewrite IH.
    destruct (Z.eqb_spec (relevance_score y) score),
      (Z.eqb_spec (relevance_score h) score); try done. lia.
Qed.

Lemma stable_sort_level (score : Z) (hits : list hit) :
  List.filter (fun x => relevance_score x =? score)
              (stable_sort by_relevance hits) =
  List.filter (fun x => relevance_score x =? score) hits.
Proof.
  induction hits as [|h hits IH]; [done|]. simpl stable_sort.
  rewrite insert_sorted_level. simpl. by rewrite IH.
Qed.

(** X19: ties keep the order of the documents.  The hits of a search are
    the first [limit] of a ranking that is sorted by descending relevance
    score and in which the hits of any one score stand in the order in
    which the loop over the documents produced them; the loop produces one
    hit per matching document, in upload order.  This holds for both
    backends. *)
Theorem search_documents_ties_in_upload_order (lower : str -> str)
    {embedder : Type} (st : model_state embedder)
    (fixed_st : fixed_model_state embedder) (query : str) (limit : Z) :
  (exists ranking produced,
     search_documents lower st query limit !! "results" =
       Some (VHits (slice_to ranking limit)) /\
     ranked ranking /\
     map hit_filename produced =
       map filename (matching_documents lower query (documents st)) /\
     forall score,
       List.filter (fun h => relevance_score h =? score) ranking =
       List.filter (fun h => relevance_score h =? score) produced) /\
  (exists ranking produced,
     fixed_search_documents lower fixed_st query limit !! "results" =
       Some (VHits (slice_to ranking limit)) /\
     ranked ranking /\
     map hit_filename produced =
       map fixed_filename
         (fixed_matching_documents lower query (fixed_documents fixed_st)) /\
     forall score,
       List.filter (fun h => relevance_score h =? score) ranking =
       List.filter (fun h => relevance_score h =? score) produced).
Proof.
  split.
  - exists (stable_sort by_relevance
              (foldl (search_step lower (lower query)) [] (documents st))),
           (foldl (search_step lower (lower query)) [] (documents st)).
    split; [apply search_documents_results|].
    split; [apply stable_sort_ranked|].
    split; [by rewrite foldl_search_step_filenames|].
    intros score. apply stable_sort_level.
  - exists (stable_sort by_relevance
              (foldl (fixed_search_step lower (lower query)) []
                     (fixed_documents fixed_st))),
           (foldl (fixed_search_step lower (lower query)) []
                  (fixed_documents fixed_st)).
    split; [apply fixed_search_documents_results|].
    split; [apply stable_sort_ranked|].
    split; [by rewrite foldl_fixed_search_step_filenames|].
    intros score. apply stable_sort_level.
Qed.

End SearchExtras.

(** ** Uploads *)

Module UploadMore.

Import KeywordSearch SearchTerms SearchFacts MatchTerms SearchMore Endpoints.

(** The number of chunks of a text of [n] words under the default
    configuration: one per started step of 450 words. *)
Lemma default_chunks (content : str) :
  exists chunks,
    chunk_document_default content = Ok chunks /\
    len chunks =
      (if 0 <? len (split content)
       then (len (split content) - 1) / 450 + 1 else 0) /\
    (forall w, w ∈ split content ->
               exists chunk, chunk ∈ chunks /\ contains w chunk = true).
Proof.
  unfold chunk_document_default.
  rewrite chunk_document_windows by lia. eexists. split; [done|].
  change (500 - 50) with 450.
  split.
  - unfold len at 1. rewrite length_map, length_seq.
    rewrite range_length_nonneg by lia.
    destruct (Z.ltb_spec 0 (len (split content))); [|done].
    pose proof (Z.div_pos (len (split content) - 1) 450). lia.
  - intros w Hin. apply list_elem_of_lookup in Hin as [i Hi].
    destruct (word_in_window (split content) 500 450 ltac:(lia) ltac:(lia)
                ltac:(lia) i w Hi) as (k & Hk & Hwk).
    exists (join (lit " ") (window (split content) 500 450 k)). split.
    + apply (list_elem_of_fmap_2
               (fun k => join (lit " ") (window (split content) 500 450 k))
               (seq 0 (Z.to_nat (range_length 0 (len (split content)) 450))) k).
      apply elem_of_seq. lia.
    + by apply contains_join.
Qed.

Section More.

Variable detector_available : bool.
Variable detect : str -> outcome str.

(** What an upload does: it cannot fail, since the default chunker
    configuration is valid. *)
Lemma upload_document_runs {embedder} now (st : model_state embedder)
    fname text :
  exists doc response,
    upload_document detector_available detect now st fname text =
      ({| embedding_model := embedding_model st;
          loaded := loaded st;
          documents := documents st ++ [doc] |}, inr response) /\
    filename doc = fname /\
    content doc = text /\
    word_count doc = len (split text) /\
    chunk_document_default text = Ok (chunks doc) /\
    response !! "word_count" = Some (VInt (len (split text))) /\
    response !! "chunks_created" = Some (VInt (len (chunks doc))) /\
    response !! "filename" = Some (VStr fname) /\
    response !! "status" = Some (VStr (lit "processed")).
Proof.
  destruct (default_chunks text) as (cs & Hcs & _).
  unfold upload_document. rewrite Hcs.
  eexists _, _. split; [reflexivity|]. simpl. repeat split; done.
Qed.

End More.

End UploadMore.

Module UploadExtras.

Import KeywordSearch SearchTerms SearchFacts MatchTerms SearchMore Endpoints
  UploadMore.

(** X11: an upload to [src/backend/app.py] never fails.  Every content,
    also the empty one, is stored as the last document, under the given
    file name, and the response reports the number of its
    whitespace-separated words and the number of its chunks, which is one
    per started step of 450 words (none for blank content). *)
Theorem upload_document_accepts (detector_available : bool)
    (detect : str -> outcome str) {embedder : Type} (now : Z)
    (st : model_state embedder) (fname text : str) :
  let run := upload_document detector_available detect now st fname text in
  let words := len (split text) in
  let count := if 0 <? words then (words - 1) / 450 + 1 else 0 in
  exists doc response,
    run.2 = inr response /\
    documents run.1 = documents st ++ [doc] /\
    filename doc = fname /\
    content doc = text /\
    len (chunks doc) = count /\
    response !! "word_count" = Some (VInt words) /\
    response !! "chunks_created" = Some (VInt count).
Proof.
  intros run words count. subst run.
  destruct (upload_document_runs detector_available detect now st fname text)
    as (doc & response & -> & Hf & Hc & _ & Hchunks & Hw & Hn & _).
  destruct (default_chunks text) as (cs & Hcs & Hlen & _).
  rewrite Hcs in Hchunks. injection Hchunks as ->.
  exists doc, response. simpl. rewrite Hn, Hlen. repeat split; done.
Qed.

(** X12: upload, then search.  After an upload to [src/backend/app.py], a
    search for a word of the uploaded text, with a cap above the number of
    documents held before, returns a hit for that document with at least
    one matching chunk, provided that case folding keeps the word inside
    the chunks of this text that hold it.  [str.lower] does so for ASCII
    text; it does not for every text, since it folds a capital sigma by
    its position in the word. *)
Theorem upload_then_search_finds_word (lower : str -> str)
    (detector_available : bool) (detect : str -> outcome str)
    {embedder : Type} (now : Z) (st : model_state embedder)
    (fname text w : str) (chunks : list str) (limit : Z) :
  chunk_document_default text = Ok chunks ->
  Forall (fun chunk => contains w chunk = true ->
                       contains (lower w) (lower chunk) = true) chunks ->
  w ∈ split text ->
  len (documents st) < limit ->
  let run := upload_document detector_available detect now st fname text in
  exists hits h,
    search_documents lower run.1 w limit !! "results" = Some (VHits hits) /\
    h ∈ hits /\
    hit_filename h = fname /\
    1 <= matches h.
Proof.
  intros Hdefault Hlower Hw Hlimit run. subst run.
  destruct (upload_document_runs detector_available detect now st fname text)
    as (doc & response & -> & Hf & Hc & _ & Hchunks & _).
  destruct (default_chunks text) as (cs & Hcs & _ & Hcover).
  rewrite Hcs in Hchunks, Hdefault. injection Hchunks as ->.
  injection Hdefault as <-.
  destruct (Hcover w Hw) as (chunk & Hchunk & Hcontains).
  simpl. rewrite search_documents_results. simpl.
  rewrite foldl_snoc.
  set (before := foldl (search_step lower (lower w)) [] (documents st)).
  assert (chunk ∈ matching_chunks lower w doc) as Hmatch.
  { unfold matching_chunks. apply list_elem_of_filter. split; [|done].
    apply Is_true_true.
    rewrite Forall_forall in Hlower. by apply Hlower. }
  assert (exists h, search_step lower (lower w) before doc = before ++ [h] /\
                    hit_filename h = fname /\ 1 <= matches h) as (h & Hstep & Hh).
  { unfold search_step. fold (matching_chunks lower w doc).
    destruct (matching_chunks lower w doc) as [|first rest] eqn:E.
    - by apply elem_of_nil in Hmatch.
    - eexists. split; [reflexivity|]. simpl. split; [done|].
      unfold len. simpl. lia. }
  rewrite Hstep. eexists _, h. split; [reflexivity|]. split; [|done].
  rewrite slice_to_all.
  - rewrite stable_sort_Permutation. apply elem_of_app. right. by left.
  - unfold len. rewrite stable_sort_length, <- Hstep.
    subst before. rewrite <- foldl_snoc, foldl_search_step_length.
    unfold matching_documents. simpl.
    pose proof (filter_length_le
                  (fun doc => truthy (matching_chunks lower w doc))
                  (documents st ++ [doc])) as Hle.
    rewrite length_app in Hle. simpl in Hle. unfold len in Hlimit. lia.
Qed.

Lemma upload_then_search_finds_word_witness :
  let run := upload_document false ExampleUpload.detect_fails 1700000000
               ExampleSearch.without_embeddings (lit "fox.txt") fox_text in
  exists hits h,
    search_documents ascii_lower run.1 (lit "lazy") 5 !! "results" =
      Some (VHits hits) /\
    h ∈ hits /\
    hit_filename h = lit "fox.txt" /\
    1 <= matches h.
Proof.
  apply (upload_then_search_finds_word ascii_lower false
           ExampleUpload.detect_fails 1700000000
           ExampleSearch.without_embeddings (lit "fox.txt") fox_text
           (lit "lazy")
           [lit "The quick brown fox jumps. The lazy dog sleeps."] 5).
  - vm_compute. reflexivity.
  - constructor; [intros _; vm_compute; reflexivity|constructor].
  - vm_compute. apply list_elem_of_In. simpl. tauto.
  - vm_compute. reflexivity.
Defined.

(** X13: a blank upload is stored but never found.  An upload to
    [src/backend/app.py] whose content is empty or whitespace only is
    accepted with [chunks_created = 0], and afterwards every search, for
    every query (also the empty one) and cap, returns the hits it returned
    before the upload. *)
Theorem blank_upload_is_never_found (lower : str -> str)
    (detector_available : bool) (detect : str -> outcome str)
    {embedder : Type} (now : Z) (st : model_state embedder)
    (fname text query : str) (limit : Z) :
  Forall (fun c => isspace c = true) text ->
  let run := upload_document detector_available detect now st fname text in
  (exists response,
     run.2 = inr response /\
     response !! "chunks_created" = Some (VInt 0)) /\
  len (documents run.1) = len (documents st) + 1 /\
  search_documents lower run.1 query limit !! "results" =
    search_documents lower st query limit !! "results".
Proof.
  intros Hblank run. subst run.
  destruct (upload_document_runs detector_available detect now st fname text)
    as (doc & response & -> & _ & _ & _ & Hchunks & _ & Hn & _).
  destruct (default_chunks text) as (cs & Hcs & Hlen & _).
  rewrite Hcs in Hchunks. injection Hchunks as ->.
  rewrite split_whitespace in Hlen by done. simpl in Hlen.
  assert (chunks doc = []) as Hnil.
  { destruct (chunks doc); [done|]. unfold len in Hlen. simpl in Hlen. lia. }
  simpl. split; [|split].
  - exists response. split; [done|]. by rewrite Hn, Hnil.
  - unfold len. rewrite length_app. simpl. lia.
  - rewrite !search_documents_results. simpl. rewrite foldl_snoc.
    unfold search_step at 1. by rewrite Hnil.
Qed.

Lemma blank_upload_is_never_found_witness :
  let run := upload_document false ExampleUpload.detect_fails 1700000000
               ExampleSearch.without_embeddings (lit "blank.txt") (lit "  ") in
  search_documents ascii_lower run.1 (lit "") 5 !! "results" =
    search_documents ascii_lower ExampleSearch.without_embeddings (lit "") 5
      !! "results".
Proof.
  apply (blank_upload_is_never_found ascii_lower false
           ExampleUpload.detect_fails 1700000000
           ExampleSearch.without_embeddings (lit "blank.txt") (lit "  ")
           (lit "") 5).
  repeat constructor.
Defined.

(** X14: upload, then search, in [fixed_backend.py].  After an upload, a
    search for a query that the uploaded content contains (both case
    folded), with a cap above the number of documents held before, returns
    a hit for that document whose [matches] is the number of occurrences,
    at least one. *)
Theorem fixed_upload_then_search_finds (lower : str -> str)
    (detector_available : bool) (detect : str -> outcome str)
    {embedder : Type} (uploaded_at : str) (st : fixed_model_state embedder)
    (fname text query : str) (limit : Z) :
  contains (lower query) (lower text) = true ->
  len (fixed_documents st) < limit ->
  let run := fixed_upload_document detector_available detect uploaded_at st
               fname text in
  exists hits h,
    fixed_search_documents lower run.1 query limit !! "results" =
      Some (VHits hits) /\
    h ∈ hits /\
    hit_filename h = fname /\
    matches h = count (lower text) (lower query) /\
    1 <= matches h.
Proof.
  intros Hc Hlimit run. subst run. unfold fixed_upload_document. simpl.
  rewrite fixed_search_documents_results. simpl. rewrite foldl_snoc.
  set (before := foldl (fixed_search_step lower (lower query)) []
                       (fixed_documents st)).
  unfold fixed_search_step at 1. simpl. rewrite Hc.
  eexists _, _. split; [reflexivity|]. split; [|split; [|split]].
  - rewrite slice_to_all.
    + rewrite stable_sort_Permutation. apply elem_of_app. right. by left.
    + unfold len. rewrite stable_sort_length, length_app. simpl.
      subst before. rewrite foldl_fixed_search_step_length.
      unfold fixed_matching_documents. simpl.
      pose proof (filter_length_le
                    (fun doc => contains (lower query) (lower (fixed_content doc)))
                    (fixed_documents st)) as Hle.
      unfold len in Hlimit. lia.
  - done.
  - done.
  - simpl. by apply count_contains.
Qed.

Lemma fixed_upload_then_search_finds_witness :
  let run := fixed_upload_document true ExampleUpload.detect_en
               (lit "2024-01-01T00:00:00") ExampleUpload.fixed_no_documents
               (lit "fox.txt") fox_text in
  exists hits h,
    fixed_search_documents ascii_lower run.1 (lit "THE") 5 !! "results" =
      Some (VHits hits) /\
    h ∈ hits /\
    hit_filename h = lit "fox.txt" /\
    matches h = count (ascii_lower fox_text) (ascii_lower (lit "THE")) /\
    1 <= matches h.
Proof.
  apply (fixed_upload_then_search_finds ascii_lower true
           ExampleUpload.detect_en (lit "2024-01-01T00:00:00")
           ExampleUpload.fixed_no_documents (lit "fox.txt") fox_text
           (lit "THE") 5); [reflexivity|].
  vm_compute. reflexivity.
Defined.

End UploadExtras.

(** ** Logins *)

Module AuthExtras.

Import Endpoints.

(** X16: the login of both backends checks only that a user name and a
    password are given.  It succeeds exactly when both keys are present
    with non-empty values and fails with status 400 otherwise; the token
    of a successful login names the user ([demo_token_<name>_<time>],
    resp. [fixed_token_<name>]); and the response does not depend on the
    password: any two non-empty passwords give the same response. *)
Theorem login_checks_presence_only (now : Z) (credentials : gmap string str) :
  let ok := given (credentials !! "username")
            && given (credentials !! "password") in
  (ok = true ->
   exists name response fixed_response,
     credentials !! "username" = Some name /\
     login now credentials = inr response /\
     response !! "access_token" =
       Some (LStr (lit "demo_token_" ++ name ++ lit "_" ++ str_of_int now)) /\
     fixed_login credentials = inr fixed_response /\
     fixed_response !! "access_token" =
       Some (LStr (lit "fixed_token_" ++ name))) /\
  (ok = false ->
   login now credentials =
     inl (HTTPException 400 (lit "Username and password required")) /\
   fixed_login credentials =
     inl (HTTPException 400 (lit "Username and password required"))) /\
  (forall p1 p2 : str,
     p1 <> [] -> p2 <> [] ->
     login now (<["password" := p1]> credentials) =
       login now (<["password" := p2]> credentials) /\
     fixed_login (<["password" := p1]> credentials) =
       fixed_login (<["password" := p2]> credentials)).
Proof.
  intros ok. subst ok. split; [|split].
  - intros Hok. unfold login, fixed_login.
    destruct (credentials !! "username") as [name|] eqn:Hu; [|done].
    rewrite Hok. by eexists name, _, _.
  - intros Hok. unfold login, fixed_login.
    destruct (credentials !! "username") as [name|] eqn:Hu; [|done].
    by rewrite Hok.
  - intros p1 p2 H1 H2. unfold login, fixed_login.
    rewrite (lookup_insert_ne credentials "password" "username" p1) by done.
    rewrite (lookup_insert_ne credentials "password" "username" p2) by done.
    rewrite !lookup_insert_eq.
    destruct (credentials !! "username") as [name|]; [|done].
    destruct p1, p2; done.
Qed.

Lemma login_checks_presence_only_witness :
  (exists response,
     login 1700000000
       {[ "username" := lit "alice"; "password" := lit "x" ]} = inr response /\
     response !! "access_token" =
       Some (LStr (lit "demo_token_alice_1700000000"))) /\
  fixed_login {[ "username" := lit "alice" ]} =
    inl (HTTPException 400 (lit "Username and password required")).
Proof.
  split.
  - destruct (login_checks_presence_only 1700000000
                {[ "username" := lit "alice"; "password" := lit "x" ]})
      as (Hok & _ & _).
    destruct Hok as (name & response & fixed_response & Hname & Hrun & Htoken & _);
      [reflexivity|].
    exists response. split; [exact Hrun|].
    vm_compute in Hname. injection Hname as <-. exact Htoken.
  - destruct (login_checks_presence_only 0 {[ "username" := lit "alice" ]})
      as (_ & Hfail & _).
    apply Hfail. reflexivity.
Defined.

End AuthExtras.

(** ** Preprocessing *)

Module NlpExtras.

Import Nlp NlpPipeline.

Lemma generate_embeddings_dtype {scalar : Type} (zero : scalar)
    (cast : dtype -> scalar -> scalar)
    (encode : list str -> outcome (list (ndarray scalar))) (text : str) :
  arr_dtype (generate_embeddings zero cast encode text) = float32.
Proof.
  unfold generate_embeddings. by destruct (encode [text]) as [[|a rows]|e].
Qed.

(** X17: [preprocess_text] never raises and normalises whitespace.  The
    result keeps the input as [original_text], its cleaned text has the
    words of the input, and its embedding is the float32 embedding of the
    cleaned text.  When spaCy succeeds the cleaned text is the words
    joined by single spaces, which has no whitespace at its ends and is
    its own cleaning, so that two texts with the same words get the same
    cleaned text and the same embedding; when spaCy raises, the text is
    kept as it is, without tokens and entities and as its only
    sentence. *)
Theorem preprocess_text_normalises {scalar : Type} (zero : scalar)
    (cast : dtype -> scalar -> scalar)
    (encode : list str -> outcome (list (ndarray scalar)))
    (nlp : str -> outcome spacy_doc) (explain : str -> option str)
    (lower : str -> str) (text : str) :
  let process := preprocess_text zero cast encode nlp explain lower in
  original_text (process text) = text /\
  split (cleaned_text (process text)) = split text /\
  embeddings (process text) =
    generate_embeddings zero cast encode (cleaned_text (process text)) /\
  arr_dtype (embeddings (process text)) = float32 /\
  (forall doc, nlp text = Ok doc ->
     cleaned_text (process text) = join (lit " ") (split text) /\
     strip (cleaned_text (process text)) = cleaned_text (process text) /\
     join (lit " ") (split (cleaned_text (process text))) =
       cleaned_text (process text) /\
     forall other doc',
       nlp other = Ok doc' -> split other = split text ->
       cleaned_text (process other) = cleaned_text (process text) /\
       embeddings (process other) = embeddings (process text)) /\
  (forall e, nlp text = Raise e ->
     cleaned_text (process text) = text /\
     tokens (process text) = [] /\
     entities (process text) = [] /\
     sentences (process text) = [text]).
Proof.
  intros process. subst process. unfold preprocess_text.
  destruct (nlp text) as [doc|e] eqn:E; simpl.
  - pose proof (split_words text) as Hw.
    split; [done|]. split; [by apply split_join|]. split; [done|].
    split; [apply generate_embeddings_dtype|]. split; [|done].
    intros _ _. split; [done|]. split; [by apply strip_join|].
    split; [by rewrite split_join|].
    intros other doc' Hother Hsame. rewrite Hother. simpl. by rewrite Hsame.
  - split; [done|]. split; [done|]. split; [done|].
    split; [apply generate_embeddings_dtype|]. split; [done|]. done.
Qed.

Lemma preprocess_text_normalises_witness :
  let process :=
    preprocess_text 0 ExampleBackend.cast ExampleBackend.encode_each
      (fun _ => Ok (SpacyDoc [] [] [])) (fun _ => None) KeywordSearch.ascii_lower in
  cleaned_text (process (lit " a  b ")) = lit "a b" /\
  embeddings (process (lit "a b")) = embeddings (process (lit " a  b ")).
Proof.
  intros process.
  destruct (preprocess_text_normalises 0 ExampleBackend.cast
              ExampleBackend.encode_each (fun _ => Ok (SpacyDoc [] [] []))
              (fun _ => None) KeywordSearch.ascii_lower (lit " a  b "))
    as (_ & _ & _ & _ & Hok & _).
  destruct (Hok (SpacyDoc [] [] []) eq_refl) as (Hclean & _ & _ & Hsame).
  split; [exact Hclean|].
  apply (Hsame (lit "a b") (SpacyDoc [] [] [])); reflexivity.
Defined.

End NlpExtras.

(** ** Cleaning a model response *)

Module CleaningFacts.

Import ResponseCleaning.

Lemma lstrip_snoc (x : str) (c : char) :
  nonspace c -> lstrip (x ++ [c]) = lstrip x ++ [c].
Proof.
  intros Hc. induction x as [|d x IH]; simpl.
  - by rewrite Hc.
  - destruct (isspace d); [done|done].
Qed.

Lemma lstrip_cases (s : str) : lstrip s = [] \/ starts_nonspace (lstrip s).
Proof.
  induction s as [|c s IH]; simpl; [by left|].
  destruct (isspace c) eqn:E; [done|]. by right.
Qed.

Lemma lstrip_elem (c : char) (s : str) : c ∈ lstrip s -> c ∈ s.
Proof.
  induction s as [|d s IH]; simpl; [done|].
  destruct (isspace d); [|done]. intros H. right. by apply IH.
Qed.

Lemma elem_of_rev (c : char) (s : str) : c ∈ rev s -> c ∈ s.
Proof. rewrite !list_elem_of_In. apply in_rev. Qed.

Lemma strip_elem (c : char) (s : str) : c ∈ strip s -> c ∈ s.
Proof.
  unfold strip. intros H. apply elem_of_rev, lstrip_elem in H.
  by apply elem_of_rev, lstrip_elem in H.
Qed.

(** What [strip] leaves is empty or has no whitespace at its ends. *)
Lemma strip_trimmed (s : str) : strip s = [] \/ trimmed (strip s).
Proof.
  unfold strip, trimmed. destruct (lstrip_cases s) as [E|Hs].
  - rewrite E. by left.
  - right. destruct (lstrip s) as [|c t]; [done|]. simpl in Hs.
    change (rev (c :: t)) with (rev t ++ [c]).
    rewrite lstrip_snoc by done.
    rewrite rev_involutive, rev_app_distr. simpl. split; [done|].
    destruct (lstrip_cases (rev t)) as [E|Ht].
    + by rewrite E.
    + by apply starts_nonspace_app.
Qed.

Lemma trimmed_strip (s : str) : trimmed s -> strip s = s.
Proof.
  intros [H1 H2]. unfold strip.
  rewrite (lstrip_id s) by done. rewrite lstrip_id by done.
  apply rev_involutive.
Qed.

Lemma trimmed_nonempty (s : str) : trimmed s -> s <> [].
Proof. intros [H _]. by destruct s. Qed.

Lemma join_trimmed (sep : str) (ls : list str) :
  ls <> [] -> Forall trimmed ls -> trimmed (join sep ls).
Proof.
  intros Hne Hls. split.
  - destruct ls as [|l ls]; [done|]. inversion Hls as [|? ? [Hl _] _]; subst.
    destruct ls; simpl; [done|]. by apply starts_nonspace_app.
  - induction ls as [|l ls IH]; [done|].
    inversion Hls as [|? ? [_ Hl] Hls']; subst.
    destruct ls as [|l' ls]; [done|].
    change (join sep (l :: l' :: ls)) with (l ++ sep ++ join sep (l' :: ls)).
    rewrite !rev_app_distr, <- app_assoc.
    apply starts_nonspace_app. by apply IH.
Qed.

Lemma split_on_nonempty (sep : char) (s : str) : split_on sep s <> [].
Proof.
  induction s as [|c s IH]; simpl; [done|].
  destruct (c =? sep)%N; [done|]. by destruct (split_on sep s).
Qed.

(** The fields of a split do not hold the separator. *)
Lemma split_on_fields (sep : char) (s : str) :
  Forall (fun field => sep ∉ field) (split_on sep s).
Proof.
  induction s as [|c s IH]; simpl.
  - repeat constructor. apply not_elem_of_nil.
  - destruct (N.eqb_spec c sep) as [->|Hne].
    + constructor; [apply not_elem_of_nil|done].
    + destruct (split_on sep s) as [|field fields]; inversion IH; subst.
      * repeat constructor. intros H. apply elem_of_cons in H as [H|H];
          [done|by apply elem_of_nil in H].
      * constructor; [|done]. intros H. apply elem_of_cons in H as [H|H]; done.
Qed.

Lemma split_on_field (sep : char) (l : str) :
  sep ∉ l -> split_on sep l = [l].
Proof.
  induction l as [|c l IH]; intros H; [done|]. simpl.
  destruct (N.eqb_spec c sep) as [->|Hne].
  - exfalso. apply H. by left.
  - rewrite IH; [done|]. intros Hin. apply H. by right.
Qed.

Lemma split_on_app (sep : char) (l rest : str) :
  sep ∉ l -> split_on sep (l ++ sep :: rest) = l :: split_on sep rest.
Proof.
  induction l as [|c l IH]; intros H; simpl.
  - by rewrite N.eqb_refl.
  - destruct (N.eqb_spec c sep) as [->|Hne].
    + exfalso. apply H. by left.
    + rewrite IH; [done|]. intros Hin. apply H. by right.
Qed.

(** Splitting what [join] built gives the lines back. *)
Lemma split_on_join (sep : char) (ls : list str) :
  ls <> [] -> Forall (fun l => sep ∉ l) ls ->
  split_on sep (join [sep] ls) = ls.
Proof.
  induction ls as [|l ls IH]; intros Hne Hls; [done|].
  inversion Hls as [|? ? Hl Hls']; subst.
  destruct ls as [|l' ls]; [by apply split_on_field|].
  change (join [sep] (l :: l' :: ls)) with (l ++ sep :: join [sep] (l' :: ls)).
  rewrite split_on_app by done. by rewrite IH.
Qed.

(** [l[-2:]] are the last two elements. *)
Lemma slice_last_two {A} (l : list A) :
  slice l (-2) (len l) = drop (length l - 2) l.
Proof.
  unfold slice, slice_index, len.
  destruct (Z.ltb_spec (Z.of_nat (length l)) 0); [lia|]. simpl.
  rewrite Z.min_id.
  replace (Z.to_nat (Z.max 0 (-2 + Z.of_nat (length l))))
    with (length l - 2)%nat by lia.
  apply take_ge. rewrite length_drop. lia.
Qed.

Lemma clean_step_kept (lines : list str) (line : str) :
  newline ∉ line -> kept_lines lines -> kept_lines (clean_step lines line).
Proof.
  intros Hline [Hall Hrep]. unfold clean_step.
  destruct (truthy (strip line)) eqn:Ht; [|done]. simpl.
  destruct (bool_decide (strip line ∈ slice lines (-2) (len lines))) eqn:Hd;
    [done|]. simpl.
  apply bool_decide_eq_false in Hd. rewrite slice_last_two in Hd.
  split.
  - apply Forall_app. split; [done|]. constructor; [|constructor]. split.
    + destruct (strip_trimmed line) as [E|Htr]; [by rewrite E in Ht|done].
    + intros H. by apply strip_elem in H.
  - intros i a b Ha Hb.
    assert (forall j x, (lines ++ [strip line]) !! j = Some x ->
              lines !! j = Some x \/ j = length lines /\ x = strip line)
      as Hcases.
    { intros j x Hj. apply lookup_app_Some in Hj as [Hj|[Hge Hj]]; [by left|].
      right. destruct (j - length lines)%nat eqn:E; [|done].
      injection Hj as <-. split; [lia|done]. }
    apply Hcases in Ha as [Ha|[-> ->]].
    + assert (b = strip line ->
              (S i = length lines \/ S (S i) = length lines) -> a <> b)
        as Hlast.
      { intros -> Hi Heq. subst a. apply Hd.
        apply list_elem_of_lookup. exists (i - (length lines - 2))%nat.
        rewrite lookup_drop. rewrite <- Ha. f_equal. lia. }
      destruct Hb as [Hb|Hb]; apply Hcases in Hb as [Hb|[Hi ->]].
      * apply (Hrep i a b Ha). by left.
      * apply Hlast; [done|by left].
      * apply (Hrep i a b Ha). by right.
      * apply Hlast; [done|by right].
    + destruct Hb as [Hb|Hb]; apply lookup_lt_Some in Hb;
        rewrite length_app in Hb; simpl in Hb; lia.
Qed.

Lemma foldl_clean_step_kept (fields : list str) : forall lines,
  Forall (fun field => newline ∉ field) fields ->
  kept_lines lines -> kept_lines (foldl clean_step lines fields).
Proof.
  induction fields as [|field fields IH]; intros lines Hf Hk; [done|].
  inversion Hf; subst. simpl. apply IH; [done|]. by apply clean_step_kept.
Qed.

End CleaningFacts.

Module CleaningExtras.

Import ResponseCleaning CleaningFacts.

(** X18: what [clean_model_response] returns.  For an empty response it
    is the empty text.  Otherwise it is the fallback text for the original
    message, or a text of at least ten characters without whitespace at
    its ends whose lines are all trimmed and not empty, none of them equal
    to the line before it or to the one before that. *)
Theorem clean_model_response_shape
    (generate_enhanced_fallback_response : str -> str -> str)
    (response original_message : str) :
  let cleaned :=
    clean_model_response generate_enhanced_fallback_response response
      original_message in
  (response = [] -> cleaned = []) /\
  (response <> [] ->
   cleaned = generate_enhanced_fallback_response original_message (lit "en") \/
   10 <= len cleaned /\
   strip cleaned = cleaned /\
   kept_lines (split_on newline cleaned)).
Proof.
  intros cleaned. subst cleaned. split.
  - by intros ->.
  - intros Hne. unfold clean_model_response.
    destruct response as [|c response]; [done|]. simpl negb. cbv iota.
    set (fields := split_on newline
                     (replace (replace (c :: response) (lit "Human:") [])
                        (lit "Assistant:") [])).
    assert (kept_lines (foldl clean_step [] fields)) as Hk.
    { apply foldl_clean_step_kept; [apply split_on_fields|].
      split; [constructor|]. intros i a b Ha. by rewrite lookup_nil in Ha. }
    set (lines := foldl clean_step [] fields) in *.
    destruct lines as [|l ls] eqn:E; [by left|].
    assert (trimmed (join [newline] (l :: ls))) as Ht.
    { apply join_trimmed; [done|]. destruct Hk as [Hall _].
      eapply Forall_impl; [exact Hall|]. by intros x [? _]. }
    rewrite trimmed_strip by done.
    destruct (Z.ltb_spec (len (join [newline] (l :: ls))) 10); [by left|].
    right. split; [done|]. split; [by apply trimmed_strip|].
    rewrite split_on_join; [done|done|]. destruct Hk as [Hall _].
    eapply Forall_impl; [exact Hall|]. by intros x [_ ?].
Qed.

Lemma clean_model_response_shape_witness :
  let cleaned := clean_model_response (fun _ _ => lit "canned") raw_response
                   (lit "hi") in
  cleaned = lit "canned" \/
  10 <= len cleaned /\
  strip cleaned = cleaned /\
  kept_lines (split_on newline cleaned).
Proof.
  intros cleaned.
  destruct (clean_model_response_shape (fun _ _ => lit "canned") raw_response
              (lit "hi")) as [_ H].
  apply H. discriminate.
Defined.

End CleaningExtras.
